(** * Verification of app.py: template projection, SSE fan-out, per-date status

    A shallow embedding of the functions of [src/app.py] that the
    specification talks about:

    - [replace_date_part] and [mr_truth] (pure string functions),
    - [broadcast] and the listener side of [sse_stream] (the shared
      [listeners] set, the per-listener bounded [Queue]),
    - the query and the statistics of [api_state_get],
    - the write [api_state_post], the seed [seed_if_empty] and the
      timetable [api_tasks], and the three JSON routes as requests
      served one after the other.

    Python values are modelled as follows.  A [str] is the list of its
    Unicode code points.  An exception is a value of [exn], a call that may
    raise returns a [result].  The interpreter's Unicode character database
    (which [re]'s [\d], [int()] and [str.lower] consult) is fixed on the
    blocks the program's literals live in and a parameter [UCD] elsewhere. *)

From Stdlib Require Import NArith ZArith Lia String Ascii.
From stdpp Require Import base option list sorting gmap.

Open Scope N_scope.

(** ** Python values *)

(** A Python [str]: its code points, in order. *)
Definition pystr := list N.

(** An ASCII literal of the source, as a [pystr]. *)
Definition lit (s : string) : pystr := map N_of_ascii (list_ascii_of_string s).

Inductive exn := ValueError | IndexError | Full.

Inductive result (A : Type) :=
| Ok (a : A)
| Raise (e : exn).
Arguments Ok {A} a.
Arguments Raise {A} e.

(** [try: r except ValueError: h] *)
Definition except_ValueError {A} (r : result A) (h : result A) : result A :=
  match r with
  | Raise ValueError => h
  | _ => r
  end.

(** [str.isspace] on one code point, the test [str.strip()] uses
    (CPython's [_PyUnicode_IsWhitespace]). *)
Definition py_isspace (c : N) : bool :=
  ((0x9 <=? c) && (c <=? 0xD)) || ((0x1C <=? c) && (c <=? 0x20))
  || (c =? 0x85) || (c =? 0xA0) || (c =? 0x1680)
  || ((0x2000 <=? c) && (c <=? 0x200A))
  || (c =? 0x2028) || (c =? 0x2029) || (c =? 0x202F) || (c =? 0x205F)
  || (c =? 0x3000).

Fixpoint lstrip (s : pystr) : pystr :=
  match s with
  | c :: r => if py_isspace c then lstrip r else s
  | [] => []
  end.

Definition rstrip (s : pystr) : pystr := rev (lstrip (rev s)).

(** [s.strip()] *)
Definition strip (s : pystr) : pystr := rstrip (lstrip s).

(** [sep in s], for a one-character [sep] *)
Definition str_contains (sep : N) (s : pystr) : bool := existsb (N.eqb sep) s.

(** [s.split(sep, 1)], for a one-character [sep] *)
Fixpoint split1 (sep : N) (s : pystr) : list pystr :=
  match s with
  | [] => [[]]
  | c :: r =>
      if c =? sep then [[]; r]
      else match split1 sep r with
           | p :: ps => (c :: p) :: ps
           | [] => [[c]]
           end
  end.

(** [l[i]] *)
Definition index {A} (l : list A) (i : nat) : result A :=
  match l !! i with
  | Some x => Ok x
  | None => Raise IndexError
  end.

Definition SPACE : N := 32.
Definition COLON : N := 58.

(** ** The Unicode character database *)

(** What the interpreter's tables say on the Basic Latin block. *)
Definition ascii_decimal (c : N) : option N :=
  if (48 <=? c) && (c <=? 57) then Some (c - 48) else None.

Definition ascii_lower (c : N) : N :=
  if (65 <=? c) && (c <=? 90) then c + 32 else c.

(** The tables of [unicodedata] that the program reaches, outside the
    Basic Latin block: [decimal_ext] is the decimal-digit value of a
    code point that has one; [lower_ext], [cased] and [case_ignorable]
    drive [str.lower]. The tables differ between interpreter versions;
    the law is a fact every version agrees on (a decimal digit is not
    white space). *)
Record UCD := {
  decimal_ext : N → option N;
  lower_ext : N → list N;
  cased : N → bool;
  case_ignorable : N → bool;
  decimal_ext_not_space : ∀ c, py_isspace c = true → decimal_ext c = None;
}.

(** The decimal-digit value of a code point: [re]'s [\d] matches exactly
    the code points that have one, and [int()] reads it. *)
Definition decimal (U : UCD) (c : N) : option N :=
  if c <? 128 then ascii_decimal c else decimal_ext U c.

(** The full lowercase mapping of a code point. The CJK Unified
    Ideographs (the block of 是 and 否) have no case. *)
Definition lower_full (U : UCD) (c : N) : list N :=
  if c <? 128 then [ascii_lower c]
  else if (0x4E00 <=? c) && (c <=? 0x9FFF) then [c]
  else lower_ext U c.

(** ** [datetime.strptime] on the two formats of the program *)

(** A backtracking matcher: the matches of a pattern at the start of the
    input, in the order the engine tries them, each with the text it
    consumed and the input that remains. *)
Definition rx := pystr → list (pystr * pystr).

Definition rx_char (p : N → bool) : rx := λ s,
  match s with
  | c :: r => if p c then [([c], r)] else []
  | [] => []
  end.

Definition rx_seq (a b : rx) : rx := λ s,
  '(m1, r1) ← a s; '(m2, r2) ← b r1; [(m1 ++ m2, r2)].

Definition rx_alt (a b : rx) : rx := λ s, a s ++ b s.

Definition rx_lit (c : N) : rx := rx_char (N.eqb c).
Definition rx_range (lo hi : N) : rx := rx_char (λ c, (lo <=? c) && (c <=? hi)).

Section Strptime.
(** decimal value of a code point *)
Variable dv : N → option N.

(** [\d] *)
Definition rx_digit : rx := rx_char (λ c, bool_decide (is_Some (dv c))).

(** [%H] is [(?P<H>2[0-3]|[0-1]\d|\d)] *)
Definition re_H : rx :=
  rx_alt (rx_seq (rx_lit 50) (rx_range 48 51))
    (rx_alt (rx_seq (rx_range 48 49) rx_digit) rx_digit).

(** [%M] is [(?P<M>[0-5]\d|\d)] *)
Definition re_M : rx :=
  rx_alt (rx_seq (rx_range 48 53) rx_digit) rx_digit.

(** [%S] is [(?P<S>6[0-1]|[0-5]\d|\d)] *)
Definition re_S : rx :=
  rx_alt (rx_seq (rx_lit 54) (rx_range 48 49))
    (rx_alt (rx_seq (rx_range 48 53) rx_digit) rx_digit).

(** The matches of the compiled format at the start of the input, with
    their groups, in the order the engine finds them. *)
Definition paths_HM (s : pystr) : list (pystr * pystr * pystr) :=
  '(h, r1) ← re_H s; '(_, r2) ← rx_lit COLON r1;
  '(m, r3) ← re_M r2; [(h, m, r3)].

Definition paths_HMS (s : pystr) : list (pystr * pystr * pystr * pystr) :=
  '(h, r1) ← re_H s; '(_, r2) ← rx_lit COLON r1;
  '(m, r3) ← re_M r2; '(_, r4) ← rx_lit COLON r3;
  '(x, r5) ← re_S r4; [(h, m, x, r5)].

(** [re.match]: the first one. *)
Definition match_HM (s : pystr) : option (pystr * pystr * pystr) :=
  head (paths_HM s).

Definition match_HMS (s : pystr) : option (pystr * pystr * pystr * pystr) :=
  head (paths_HMS s).

(** [int(s)] on a group the pattern matched (decimal digits only) *)
Definition py_int (s : pystr) : option N :=
  foldl (λ acc c, a ← acc; d ← dv c; Some (10 * a + d)) (Some 0) s.

(** A [datetime.time]. *)
Record time := { hour : N; minute : N; second : N }.

(** The constructor's range checks; the date is 1900-01-01. *)
Definition mk_time (h m x : N) : result time :=
  if (h <=? 23) && (m <=? 59) && (x <=? 59)
  then Ok {| hour := h; minute := m; second := x |}
  else Raise ValueError.

(** [datetime.strptime(data, "%H:%M:%S").time()] *)
Definition strptime_HMS (data : pystr) : result time :=
  match match_HMS data with
  | None => Raise ValueError            (* does not match format *)
  | Some (h, m, x, rest) =>
      match rest with
      | _ :: _ => Raise ValueError      (* unconverted data remains *)
      | [] =>
          match py_int h, py_int m, py_int x with
          | Some h, Some m, Some x => mk_time h m x
          | _, _, _ => Raise ValueError
          end
      end
  end.

(** [datetime.strptime(data, "%H:%M").time()] *)
Definition strptime_HM (data : pystr) : result time :=
  match match_HM data with
  | None => Raise ValueError
  | Some (h, m, rest) =>
      match rest with
      | _ :: _ => Raise ValueError
      | [] =>
          match py_int h, py_int m with
          | Some h, Some m => mk_time h m 0
          | _, _ => Raise ValueError
          end
      end
  end.
End Strptime.

Arguments hour : clear implicits.
Arguments minute : clear implicits.
Arguments second : clear implicits.

(** [%02d] of a field of a [time] (all are below 60) *)
Definition fmt_02d (n : N) : pystr := [48 + n / 10; 48 + n mod 10].

(** [t.strftime("%H:%M:%S")] *)
Definition strftime_HMS (t : time) : pystr :=
  fmt_02d (hour t) ++ [COLON] ++ fmt_02d (minute t) ++ [COLON] ++ fmt_02d (second t).

(** [t.strftime("%H:%M")] *)
Definition strftime_HM (t : time) : pystr :=
  fmt_02d (hour t) ++ [COLON] ++ fmt_02d (minute t).

(** ** [replace_date_part] and [mr_truth] *)

Section Utils.
Context (U : UCD).

(** [_t.strip()], the text handed to [strptime] (lines 31, 32 and 34) *)
Definition time_text (ts : pystr) : result pystr :=
  let ts := strip ts in
  match (if str_contains SPACE ts then index (split1 SPACE ts) 1 else Ok ts) with
  | Ok _t => Ok (strip _t)
  | Raise e => Raise e
  end.

(** The [try] / [except ValueError] of lines 33 to 38: the rendered time *)
Definition render_time (text : pystr) : result pystr :=
  except_ValueError
    (match strptime_HMS (decimal U) text with
     | Ok t_obj => Ok (strftime_HMS t_obj)
     | Raise e => Raise e
     end)
    (match strptime_HM (decimal U) text with
     | Ok t_obj => Ok (strftime_HM t_obj)
     | Raise e => Raise e
     end).

Definition replace_date_part (ts to_date : pystr) : result pystr :=
  match time_text ts with
  | Raise e => Raise e
  | Ok text =>
      match render_time text with
      | Raise e => Raise e
      | Ok t_str => Ok (to_date ++ [SPACE] ++ t_str)
      end
  end.
End Utils.

Section Truth.
Context (U : UCD).

(** The scan to the left of a capital sigma, from position [i - 1] down:
    case-ignorable code points are skipped, the first other one decides. *)
Fixpoint cased_before (rev_prefix : pystr) : bool :=
  match rev_prefix with
  | [] => false
  | c :: r => if case_ignorable U c then cased_before r else cased U c
  end.

(** The scan to its right, from position [i + 1] up. *)
Fixpoint no_cased_after (suffix : pystr) : bool :=
  match suffix with
  | [] => true
  | c :: r => if case_ignorable U c then no_cased_after r else negb (cased U c)
  end.

Definition handle_capital_sigma (rev_prefix suffix : pystr) : N :=
  if cased_before rev_prefix && no_cased_after suffix then 0x3C2 else 0x3C3.

Fixpoint do_lower (rev_prefix s : pystr) : pystr :=
  match s with
  | [] => []
  | c :: r =>
      (if c =? 0x3A3 then [handle_capital_sigma rev_prefix r] else lower_full U c)
      ++ do_lower (c :: rev_prefix) r
  end.

(** [s.lower()] *)
Definition lower (s : pystr) : pystr := do_lower [] s.

(** The tuple [("是","true","1","y","yes")] *)
Definition truthy : list pystr :=
  [[0x662F]; lit "true"; lit "1"; lit "y"; lit "yes"].

(** [str(v).strip().lower() in ("是","true","1","y","yes")], [v] a [str] *)
Definition mr_truth (v : pystr) : bool :=
  bool_decide (lower (strip v) ∈ truthy).
End Truth.

(** ** Server-sent events: the listener set and [broadcast] *)

(** One entry of [ev["changes"]] and the event [api_state_post] builds. *)
Record change := { c_task_id : Z; c_completed : Z; c_reviewed : Z }.
Record event := { ev_date : pystr; ev_changes : list change; ev_seq : Z }.

(** A [queue.Queue]: its [maxsize] and its pending items, oldest first. *)
Record Queue := { maxsize : Z; items : list event }.

(** [Queue(maxsize=n)] *)
Definition Queue_new (n : Z) : Queue := {| maxsize := n; items := [] |}.

(** [q.put_nowait(item)]: [Full] when [maxsize > 0] and
    [qsize() >= maxsize], else the item is appended. *)
Definition put_nowait (q : Queue) (item : event) : result Queue :=
  if bool_decide (0 < maxsize q)%Z && bool_decide (maxsize q ≤ Z.of_nat (length (items q)))%Z
  then Raise Full
  else Ok {| maxsize := maxsize q; items := items q ++ [item] |}.

(** [q.get()] when an item is pending ([None]: the call blocks). *)
Definition get (q : Queue) : option (event * Queue) :=
  match items q with
  | [] => None
  | e :: r => Some (e, {| maxsize := maxsize q; items := r |})
  end.

(** The queue objects of the process by identity, and the global
    [listeners], a set of references to some of them. *)
Record state := { heap : gmap nat Queue; listeners : gset nat }.

(** Every reference in [listeners] points to a queue. *)
Definition wf (st : state) : Prop := listeners st ⊆ dom (heap st).

(** What a call does to the shared objects, in program order. *)
Inductive op :=
| Acquire                      (* lst_lock.__enter__ *)
| Release                      (* lst_lock.__exit__ *)
| Snapshot (qs : list nat)     (* list(listeners) *)
| PutNowait (q : nat)          (* q.put_nowait(ev) *)
| SetAdd (q : nat)             (* listeners.add(q) *)
| SetDiscard (q : nat).        (* listeners.discard(q) *)

(** [q.put_nowait(ev)] through a reference. *)
Definition put_ref (q : nat) (ev : event) (h : gmap nat Queue) : result (gmap nat Queue) :=
  match h !! q with
  | None => Raise IndexError   (* no such object: excluded by [wf] *)
  | Some o =>
      match put_nowait o ev with
      | Ok o' => Ok (<[q := o']> h)
      | Raise e => Raise e
      end
  end.

(** The first loop of [broadcast]: [try: q.put_nowait(ev)]
    [except Exception: dead.append(q)] over the snapshot. *)
Fixpoint deliver (ev : event) (snapshot : list nat) (h : gmap nat Queue) (dead : list nat)
  : gmap nat Queue * list nat :=
  match snapshot with
  | [] => (h, dead)
  | q :: rest =>
      match put_ref q ev h with
      | Ok h' => deliver ev rest h' dead
      | Raise _ => deliver ev rest h (dead ++ [q])
      end
  end.

(** The second loop: [for q in dead: listeners.discard(q)]. *)
Definition discard_all (dead : list nat) (s : gset nat) : gset nat :=
  foldl (λ s q, s ∖ {[q]}) s dead.

(** [broadcast(ev)], with the operations it performs. The whole body is
    inside [with lst_lock:]. *)
Definition broadcast_ops (ev : event) (st : state) : state * list op :=
  let snapshot := elements (listeners st) in
  let '(h, dead) := deliver ev snapshot (heap st) [] in
  ({| heap := h; listeners := discard_all dead (listeners st) |},
   [Acquire] ++ [Snapshot snapshot] ++ (PutNowait <$> snapshot)
   ++ (SetDiscard <$> dead) ++ [Release]).

Definition broadcast (ev : event) (st : state) : state := (broadcast_ops ev st).1.

(** [sse_stream] up to the generator: [q = Queue(maxsize=1000)], then
    [listeners.add(q)] under the lock. Returns the new reference. *)
Definition sse_open (st : state) : nat * state :=
  let q := fresh (dom (heap st)) in
  (q, {| heap := <[q := Queue_new 1000]> (heap st); listeners := {[q]} ∪ listeners st |}).

(** One turn of the generator's loop: [ev = q.get()], then the [yield]. *)
Definition sse_next (q : nat) (st : state) : option (event * state) :=
  match heap st !! q with
  | None => None
  | Some o =>
      match get o with
      | None => None
      | Some (e, o') => Some (e, {| heap := <[q := o']> (heap st); listeners := listeners st |})
      end
  end.

(** The [finally] of the generator: [listeners.discard(q)] under the lock. *)
Definition sse_close (q : nat) (st : state) : state :=
  {| heap := heap st; listeners := listeners st ∖ {[q]} |}.

(** A schedule of the process: requests served one after the other. *)
Inductive action :=
| Publish (ev : event)     (* a call of broadcast *)
| Next (q : nat)           (* listener q takes its next event, if one is pending *)
| Open                     (* a new stream connects *)
| Close (q : nat).         (* the stream of q is closed *)

Definition step (a : action) (st : state) : state * list (nat * event) :=
  match a with
  | Publish ev => (broadcast ev st, [])
  | Next q =>
      match sse_next q st with
      | Some (e, st') => (st', [(q, e)])
      | None => (st, [])
      end
  | Open => ((sse_open st).2, [])
  | Close q => (sse_close q st, [])
  end.

(** Runs a schedule; the second component lists what the streams
    yielded, as (listener, event), in order. *)
Fixpoint run (acts : list action) (st : state) : state * list (nat * event) :=
  match acts with
  | [] => (st, [])
  | a :: rest =>
      let '(st1, out1) := step a st in
      let '(st2, out2) := run rest st1 in
      (st2, out1 ++ out2)
  end.

(** The events a schedule publishes, and those a listener was handed. *)
Definition published (acts : list action) : list event :=
  omap (λ a, match a with Publish ev => Some ev | _ => None end) acts.

Definition received (q : nat) (out : list (nat * event)) : list event :=
  omap (λ '(p, e), if bool_decide (p = q) then Some e else None) out.

(** The items pending in the queue of a reference. *)
Definition pending (q : nat) (st : state) : list event :=
  match heap st !! q with
  | Some o => items o
  | None => []
  end.

(** ** The status read: [api_state_get] *)

(** A row of [tasks] and a row of [task_state]. *)
Record task_row := {
  t_id : Z; t_name : pystr; t_start : pystr; t_end : pystr;
  t_predecessor : option pystr; t_must_review : pystr }.

Record state_row := { s_date : pystr; s_task_id : Z; s_completed : Z; s_reviewed : Z }.

Record db := { tasks : list task_row; task_state : list state_row }.

(** [ON s.task_id = t.id AND s.date = ?] *)
Definition join_on (date : pystr) (t : task_row) (s : state_row) : Prop :=
  s_task_id s = t_id t ∧ s_date s = date.

#[global] Instance join_on_dec date t s : Decision (join_on date t s).
Proof. unfold join_on. apply _. Defined.

(** [tasks t LEFT JOIN task_state s ON ...]: every task row with each
    matching state row, or once with NULLs when there is none. *)
Definition left_join (date : pystr) (ts : list task_row) (ss : list state_row)
  : list (task_row * option state_row) :=
  t ← ts;
  match filter (join_on date t) ss with
  | [] => [(t, None)]
  | ms => (λ s, (t, Some s)) <$> ms
  end.

(** [COALESCE(x, 0)] *)
Definition coalesce0 (x : option Z) : Z := default 0%Z x.

(** The tuples [cur.fetchall()] returns: id, name, must_review,
    completed, reviewed. *)
Definition fetched : Type := Z * pystr * pystr * Z * Z.

Definition select_row (r : task_row * option state_row) : fetched :=
  (t_id r.1, t_name r.1, t_must_review r.1,
   coalesce0 (s_completed <$> r.2), coalesce0 (s_reviewed <$> r.2)).

Definition by_id (a b : task_row * option state_row) : Prop := (t_id a.1 ≤ t_id b.1)%Z.

#[global] Instance by_id_dec a b : Decision (by_id a b).
Proof. unfold by_id. apply _. Defined.

(** The [SELECT] of lines 174 to 182. *)
Definition query_state (d : db) (date : pystr) : list fetched :=
  select_row <$> merge_sort by_id (left_join date (tasks d) (task_state d)).

(** An element of [lst]. *)
Record entry := {
  e_id : Z; e_name : pystr; e_mustReview : pystr;
  e_completed : bool; e_reviewed : bool }.

(** [bool(n)] of an integer *)
Definition py_bool (n : Z) : bool := negb (n =? 0)%Z.

Definition to_entry (r : fetched) : entry :=
  let '(tid, name, mr, comp, rev) := r in
  {| e_id := tid; e_name := name; e_mustReview := mr;
     e_completed := py_bool comp; e_reviewed := py_bool rev |}.

(** [sum(1 for x in lst if p(x))] *)
Fixpoint sum_if (p : entry → bool) (lst : list entry) : nat :=
  match lst with
  | [] => 0%nat
  | x :: r => if p x then S (sum_if p r) else sum_if p r
  end.

Record stats_t := {
  total : nat; doneReviewed : nat; doneUnreviewed : nat;
  undone : nat; mustReviewUndone : nat }.

(** The body of the response: [{"date": date, "list": lst, "stats": stats}]. *)
Record state_response := { r_date : pystr; r_list : list entry; r_stats : stats_t }.

(** [x or y] on strings, the left one possibly [None] *)
Definition str_or (x : option pystr) (y : pystr) : pystr :=
  match x with
  | Some (c :: s) => c :: s
  | _ => y
  end.

Section Api.
Context (U : UCD).

Definition stats_of (lst : list entry) : stats_t :=
  {| total := length lst;
     doneReviewed := sum_if (λ x, e_completed x && e_reviewed x) lst;
     doneUnreviewed := sum_if (λ x, e_completed x && negb (e_reviewed x)) lst;
     undone := sum_if (λ x, negb (e_completed x)) lst;
     mustReviewUndone :=
       sum_if (λ x, mr_truth U (e_mustReview x) && negb (e_completed x)
                    && negb (e_reviewed x)) lst |}.

(** [api_state_get]: [arg] is [request.args.get("date")], [today] the
    value of [today_str()], [d] the database the connection reads. *)
Definition api_state_get (d : db) (arg : option pystr) (today : pystr) : state_response :=
  let date := str_or arg today in
  let rows := query_state d date in
  let lst := to_entry <$> rows in
  {| r_date := date; r_list := lst; r_stats := stats_of lst |}.
End Api.

(** ** The status write: [api_state_post] *)

(** The body of the request after [request.get_json(silent=True) or {}],
    as the handler reads it.  [data.get("date")] is a string SQLite
    can store (no lone surrogate) or absent.
    [data.get("task_id")] is an integer of any size ([Some z]) or a
    value the test [not task_id] cannot tell from an absent one
    ([None]: absent, [null], [false], [0.0], the empty string, the
    empty list, the empty object).  Of [data.get("completed")] and
    [data.get("reviewed")] only the truth value is read.  A [task_id]
    that is true and no integer (a non-empty string, a non-zero float,
    [true], a non-empty container) is not a value of this type. *)
Record post_body := {
  b_date : option pystr; b_task_id : option Z;
  b_completed : bool; b_reviewed : bool }.

(** [{}] *)
Definition empty_body : post_body :=
  {| b_date := None; b_task_id := None; b_completed := false; b_reviewed := false |}.

(** Two rows collide on [PRIMARY KEY(date, task_id)]. *)
Definition same_key (a b : state_row) : Prop :=
  s_date a = s_date b ∧ s_task_id a = s_task_id b.

#[global] Instance same_key_dec a b : Decision (same_key a b).
Proof. unfold same_key. apply _. Defined.

(** [INSERT OR REPLACE INTO task_state ... VALUES (?,?,?,?)]: the rows
    that collide with the new one are deleted, then it is inserted. *)
Definition insert_or_replace (row : state_row) (rows : list state_row) : list state_row :=
  filter (λ r, ¬ same_key r row) rows ++ [row].

(** [1 if x else 0] *)
Definition flag (x : bool) : Z := if x then 1%Z else 0%Z.

(** The database file and the listeners of the process. *)
Record world := { w_db : db; w_sse : state }.

(** The integers SQLite stores: [cur.execute] binds a Python [int]
    through a signed 64-bit integer and raises [OverflowError] for any
    other. *)
Definition sqlite_int (z : Z) : Prop := (- 2 ^ 63 ≤ z < 2 ^ 63)%Z.

#[global] Instance sqlite_int_dec z : Decision (sqlite_int z).
Proof. unfold sqlite_int. apply _. Defined.

(** What the handler returns: [{"ok": True}], or an error and its
    status; or the exception it lets through, which the framework
    answers with status 500. *)
Inductive post_response :=
| PostOk
| NeedTaskId                   (* {"error": "need task_id"}, 400 *)
| TaskNotExists (task_id : Z)  (* {"error": "task ... not exists"}, 404 *)
| PostOverflowError.           (* the SELECT raises OverflowError *)


(** [api_state_post]: [json] is [request.get_json(silent=True)], [today]
    the value of [today_str()], [now_ms] the value of
    [int(time.time()*1000)]. *)
Definition api_state_post (json : option post_body) (today : pystr) (now_ms : Z)
    (w : world) : post_response * world :=
  let data := default empty_body json in
  let date := str_or (b_date data) today in
  match b_task_id data with
  | None => (NeedTaskId, w)
  | Some task_id =>
      if (task_id =? 0)%Z then (NeedTaskId, w)
      else
        let completed := flag (b_completed data) in
        let reviewed := flag (b_reviewed data) in
        (* cur.execute("SELECT 1 FROM tasks WHERE id=?", (task_id,)) *)
        if decide (sqlite_int task_id) then
          match filter (λ t, t_id t = task_id) (tasks (w_db w)) with
          | [] => (TaskNotExists task_id, w)
          | _ :: _ =>
              let row := {| s_date := date; s_task_id := task_id;
                            s_completed := completed; s_reviewed := reviewed |} in
              let ev := {| ev_date := date;
                           ev_changes := [{| c_task_id := task_id; c_completed := completed;
                                             c_reviewed := reviewed |}];
                           ev_seq := now_ms |} in
              (PostOk,
               {| w_db := {| tasks := tasks (w_db w);
                             task_state := insert_or_replace row (task_state (w_db w)) |};
                  w_sse := broadcast ev (w_sse w) |})
          end
        else (PostOverflowError, w)   (* OverflowError: nothing was written or published *)
  end.

(** ** The seed: [seed_if_empty] *)

(** [json.dumps] of a list of ASCII names without quotes or escapes. *)
Definition QUOTE : N := 34.

Fixpoint dumps_items (names : list pystr) : pystr :=
  match names with
  | [] => []
  | [n] => [QUOTE] ++ n ++ [QUOTE]
  | n :: rest => [QUOTE] ++ n ++ [QUOTE] ++ lit ", " ++ dumps_items rest
  end.

Definition dumps_names (names : list pystr) : pystr :=
  lit "[" ++ dumps_items names ++ lit "]".

Definition NO : pystr := [0x5426].   (* 否 *)
Definition YES : pystr := [0x662F].  (* 是 *)

Definition seed_task (id : Z) (name start end_ : string) (pred : list pystr) (mr : pystr)
  : task_row :=
  {| t_id := id; t_name := lit name; t_start := lit start; t_end := lit end_;
     t_predecessor := Some (dumps_names pred); t_must_review := mr |}.

(** The list [sample] *)
Definition sample : list task_row :=
  [ seed_task 1 "T1" "2024-08-06 08:00" "2024-08-06 09:00" [] NO;
    seed_task 2 "T2" "2024-08-06 08:10" "2024-08-06 08:45" [] NO;
    seed_task 3 "T3" "2024-08-06 08:15" "2024-08-06 08:55" [] YES;
    seed_task 4 "T4" "2024-08-06 09:20" "2024-08-06 09:50" [lit "T1"; lit "T3"; lit "T2"] NO;
    seed_task 5 "T5" "2024-08-06 10:00" "2024-08-06 10:40" [lit "T4"] YES ].

Definition seed_state (id c r : Z) : state_row :=
  {| s_date := lit "2024-08-06"; s_task_id := id; s_completed := c; s_reviewed := r |}.

Definition sample_state : list state_row :=
  [ seed_state 1 1 1; seed_state 2 1 0; seed_state 3 0 0; seed_state 4 1 1;
    seed_state 5 0 0 ].

(** [executemany] of the [INSERT OR REPLACE] *)
Definition insert_or_replace_many (new rows : list state_row) : list state_row :=
  foldl (λ acc r, insert_or_replace r acc) rows new.

(** [seed_if_empty]: only when [SELECT COUNT( * ) FROM tasks] is 0. *)
Definition seed_if_empty (d : db) : db :=
  match tasks d with
  | [] => {| tasks := sample;
             task_state := insert_or_replace_many sample_state (task_state d) |}
  | _ :: _ => d
  end.

(** The database after [init_db] created the two tables in a new file. *)
Definition db_new : db := {| tasks := []; task_state := [] |}.

(** ** The timetable: [api_tasks] *)

Definition task_le (a b : task_row) : Prop := (t_id a ≤ t_id b)%Z.

#[global] Instance task_le_dec a b : Decision (task_le a b).
Proof. unfold task_le. apply _. Defined.

(** [SELECT id,name,start,end,predecessor,must_review FROM tasks ORDER BY id] *)
Definition select_tasks (d : db) : list task_row := merge_sort task_le (tasks d).

Section ApiTasks.
Context (U : UCD).
(** The values of JSON, [json.loads] ([None] when it raises) and the
    empty list [[]]: the program only passes them on. *)
Context {J : Type} (json_loads : pystr → option J) (json_nil : J).

(** An element of [out]. *)
Record task_out := {
  o_id : Z; o_name : pystr; o_start : pystr; o_end : pystr;
  o_predecessor : J; o_must_review : pystr }.

(** [json.loads(predecessor) if predecessor else []], and [[]] when
    [json.loads] raises. *)
Definition load_predecessor (predecessor : option pystr) : J :=
  match predecessor with
  | Some (c :: s) => default json_nil (json_loads (c :: s))
  | _ => json_nil
  end.

(** The body of the loop of [api_tasks] for one row. *)
Definition project_row (req_date : pystr) (t : task_row) : result task_out :=
  match replace_date_part U (t_start t) req_date with
  | Raise e => Raise e
  | Ok start2 =>
      match replace_date_part U (t_end t) req_date with
      | Raise e => Raise e
      | Ok end2 =>
          Ok {| o_id := t_id t; o_name := t_name t; o_start := start2; o_end := end2;
                o_predecessor := load_predecessor (t_predecessor t);
                o_must_review := t_must_review t |}
      end
  end.

(** The loop: the first row that raises ends the call. *)
Fixpoint project_rows (req_date : pystr) (rows : list task_row) : result (list task_out) :=
  match rows with
  | [] => Ok []
  | t :: rest =>
      match project_row req_date t with
      | Raise e => Raise e
      | Ok o =>
          match project_rows req_date rest with
          | Raise e => Raise e
          | Ok out => Ok (o :: out)
          end
      end
  end.

(** [api_tasks]: [arg] is [request.args.get("date")]. *)
Definition api_tasks (d : db) (arg : option pystr) (today : pystr) : result (list task_out) :=
  project_rows (str_or arg today) (select_tasks d).
End ApiTasks.

Arguments task_out : clear implicits.
Arguments o_id {J} _.
Arguments o_name {J} _.
Arguments o_start {J} _.
Arguments o_end {J} _.
Arguments o_predecessor {J} _.
Arguments o_must_review {J} _.

(** ** The requests of the process *)

(** A request to one of the three JSON routes. A status write also
    reads the clock. *)
Inductive request :=
| GetTasks (arg : option pystr)                       (* GET /api/tasks *)
| GetState (arg : option pystr)                       (* GET /api/state *)
| PostState (json : option post_body) (now_ms : Z).   (* POST /api/state *)

Section Server.
Context (U : UCD).
Context {J : Type} (json_loads : pystr → option J) (json_nil : J).

(** What a request is answered with. An exception that a handler lets
    through ends that request: the framework answers it with status
    500 and goes on. *)
Inductive response :=
| TasksResponse (r : result (list (task_out J)))
| StateResponse (r : state_response)
| PostResponse (r : post_response).

(** One request, [today] being the value of [today_str()] while it is
    served. The two reads only [SELECT]. *)
Definition handle (today : pystr) (r : request) (w : world) : response * world :=
  match r with
  | GetTasks arg => (TasksResponse (api_tasks U json_loads json_nil (w_db w) arg today), w)
  | GetState arg => (StateResponse (api_state_get U (w_db w) arg today), w)
  | PostState json now_ms =>
      let '(resp, w') := api_state_post json today now_ms w in
      (PostResponse resp, w')
  end.

(** Requests served one after the other. *)
Fixpoint serve (reqs : list (pystr * request)) (w : world) : list response * world :=
  match reqs with
  | [] => ([], w)
  | (today, r) :: rest =>
      let '(resp, w1) := handle today r w in
      let '(resps, w2) := serve rest w1 in
      (resp :: resps, w2)
  end.
End Server.

Arguments response : clear implicits.
Arguments TasksResponse {J} _.
Arguments StateResponse {J} _.
Arguments PostResponse {J} _.

(** * The vocabulary of the properties *)

(** ** A database instance *)

(** The database whose tables are empty outside the Basic Latin block:
    the smallest one that satisfies the law of [UCD]. Closed examples
    are run on it. *)
Definition ucd_latin : UCD :=
  {| decimal_ext := λ _, None;
     lower_ext := λ c, [c];
     cased := λ c, ((65 <=? c) && (c <=? 90)) || ((97 <=? c) && (c <=? 122));
     case_ignorable := λ c, (c =? 39) || (c =? 46) || (c =? 58) || (c =? 94) || (c =? 96);
     decimal_ext_not_space := λ c _, eq_refl |}.

(** ** Time texts *)

(** The time-of-day portion as the specification words it: the part
    after the first code point of a class, or the whole string when
    there is none. *)
Fixpoint find_after (p : N → bool) (s : pystr) : option pystr :=
  match s with
  | [] => None
  | c :: r => if p c then Some r else find_after p r
  end.

Definition portion_after (p : N → bool) (s : pystr) : pystr :=
  default s (find_after p s).

(** A date as [today_str] renders it, [YYYY-MM-DD]. *)
Definition is_ascii_digit (c : N) : bool := (48 <=? c) && (c <=? 57).

Definition HYPHEN : N := 45.

Definition is_iso_date (d : pystr) : bool :=
  match d with
  | [y1; y2; y3; y4; h1; m1; m2; h2; d1; d2] =>
      forallb is_ascii_digit [y1; y2; y3; y4; m1; m2; d1; d2]
      && (h1 =? HYPHEN) && (h2 =? HYPHEN)
  | _ => false
  end.

Definition nonspace (s : pystr) : Prop := Forall (λ c, py_isspace c = false) s.

(** Every match of [a] consumes a prefix of the input that satisfies [P]. *)
Definition rx_sound (a : rx) (P : pystr → Prop) : Prop :=
  ∀ s m r, (m, r) ∈ a s → s = m ++ r ∧ P m.

(** A group of a time format: one or more decimal digits. *)
Definition digits (U : UCD) (g : pystr) : Prop :=
  g ≠ [] ∧ Forall (λ c, is_Some (decimal U c)) g.

(** The numbers below [n]. *)
Definition below (n : nat) : list N := N.of_nat <$> seq 0 n.

Definition same_time (r : result time) (h m x : N) : bool :=
  match r with
  | Ok t => (hour t =? h) && (minute t =? m) && (second t =? x)
  | Raise _ => false
  end.

Definition roundtrip_HMS_at (U : UCD) (h m x : N) : bool :=
  same_time (strptime_HMS (decimal U)
               (strftime_HMS {| hour := h; minute := m; second := x |})) h m x.

Definition roundtrip_HM_at (U : UCD) (h m : N) : bool :=
  same_time (strptime_HM (decimal U)
               (strftime_HM {| hour := h; minute := m; second := 0 |})) h m 0.

(** The template of the specification's scenario with a tab for the
    separator. *)
Definition ts_tab : pystr := lit "2024-08-06" ++ [9] ++ lit "08:00".

(** ** Queues and the lock *)

(** The queue is full: [maxsize > 0] and [qsize() >= maxsize]. *)
Definition is_full (o : Queue) : Prop :=
  (0 < maxsize o)%Z ∧ (maxsize o ≤ Z.of_nat (length (items o)))%Z.

#[global] Instance is_full_dec o : Decision (is_full o).
Proof. unfold is_full. apply _. Defined.

(** What one [try: q.put_nowait(ev)] does to the slot of [q]: the slot
    afterwards, and whether the call raised. *)
Definition try_put (ev : event) (slot : option Queue) : option Queue * bool :=
  match slot with
  | None => (None, true)
  | Some o =>
      if decide (is_full o) then (Some o, true)
      else (Some {| maxsize := maxsize o; items := items o ++ [ev] |}, false)
  end.

(** Whether [lst_lock] is held after an operation. *)
Definition lock_after (held : bool) (o : op) : bool :=
  match o with
  | Acquire => true
  | Release => false
  | _ => held
  end.

(** Every [put_nowait] of the trace runs with the lock in state [want]. *)
Fixpoint puts_see_lock (want held : bool) (tr : list op) : bool :=
  match tr with
  | [] => true
  | o :: r =>
      match o with
      | PutNowait _ => eqb held want
      | _ => true
      end && puts_see_lock want (lock_after held o) r
  end.

(** ** One listener's view of a schedule *)

(** What a schedule does to one listener depends on that listener's own
    queue and registration only; [view_step] is the process projected
    on listener [q]. *)
Record view := { v_queue : Queue; v_reg : bool }.

Definition view_of (q : nat) (st : state) : option view :=
  o ← heap st !! q; Some {| v_queue := o; v_reg := bool_decide (q ∈ listeners st) |}.

Definition view_step (q : nat) (a : action) (v : view) : view * list event :=
  match a with
  | Publish ev =>
      if v_reg v then
        if decide (is_full (v_queue v))
        then ({| v_queue := v_queue v; v_reg := false |}, [])
        else ({| v_queue := {| maxsize := maxsize (v_queue v);
                               items := items (v_queue v) ++ [ev] |};
                 v_reg := true |}, [])
      else (v, [])
  | Next p =>
      if decide (p = q) then
        match get (v_queue v) with
        | Some (e, o') => ({| v_queue := o'; v_reg := v_reg v |}, [e])
        | None => (v, [])
        end
      else (v, [])
  | Open => (v, [])
  | Close p =>
      if decide (p = q) then ({| v_queue := v_queue v; v_reg := false |}, []) else (v, [])
  end.

Fixpoint view_run (q : nat) (acts : list action) (v : view) : view * list event :=
  match acts with
  | [] => (v, [])
  | a :: rest =>
      let '(v1, out1) := view_step q a v in
      let '(v2, out2) := view_run q rest v1 in
      (v2, out1 ++ out2)
  end.

(** ** Example data *)

(** The event of the specification's scenario. *)
Definition ev0 : event :=
  {| ev_date := lit "2025-01-01";
     ev_changes := [{| c_task_id := 3; c_completed := 1; c_reviewed := 0 |}];
     ev_seq := 1000 |}.

(** Two more events, to tell the order. *)
Definition ev1 : event :=
  {| ev_date := lit "2025-01-01";
     ev_changes := [{| c_task_id := 3; c_completed := 1; c_reviewed := 1 |}];
     ev_seq := 1001 |}.

Definition ev2 : event :=
  {| ev_date := lit "2025-01-01";
     ev_changes := [{| c_task_id := 5; c_completed := 1; c_reviewed := 0 |}];
     ev_seq := 1001 |}.

(** A listener as [sse_stream] creates it, with 1000 events pending. *)
Definition q_full : Queue := {| maxsize := 1000; items := replicate 1000 ev0 |}.

(** Listener 0 has a full queue, listener 1 an empty one. *)
Definition st_two : state :=
  {| heap := {[ 0%nat := q_full; 1%nat := Queue_new 1000 ]};
     listeners := {[ 0%nat; 1%nat ]} |}.

(** The state after one stream connected to a fresh process. *)
Definition st_one : state := (sse_open {| heap := ∅; listeners := ∅ |}).2.

(** A second stream connects and is closed while three events are
    published to the listener of [st_one]. *)
Definition schedule0 : list action :=
  [Publish ev0; Open; Publish ev1; Close 1; Publish ev2].

(** Two rows of the seed of [seed_if_empty], read for another day. *)
Definition task_T1 : task_row :=
  {| t_id := 1; t_name := lit "T1"; t_start := lit "2024-08-06 08:00";
     t_end := lit "2024-08-06 09:00"; t_predecessor := Some (lit "[]");
     t_must_review := [0x5426] |}.

Definition task_T3 : task_row :=
  {| t_id := 3; t_name := lit "T3"; t_start := lit "2024-08-06 08:15";
     t_end := lit "2024-08-06 08:55"; t_predecessor := Some (lit "[]");
     t_must_review := [0x662F] |}.

Definition db_seed : db :=
  {| tasks := [task_T1; task_T3];
     task_state := [ {| s_date := lit "2024-08-06"; s_task_id := 1;
                        s_completed := 1; s_reviewed := 1 |};
                     {| s_date := lit "2024-08-06"; s_task_id := 3;
                        s_completed := 0; s_reviewed := 0 |} ] |}.

(** ** Further vocabulary: white space, keys, bounds, request sequences *)

Definition all_space (s : pystr) : Prop := Forall (λ c, py_isspace c = true) s.

(** A character of a rendered time: an ASCII digit or a colon. *)
Definition time_char (c : N) : Prop := is_ascii_digit c = true ∨ c = COLON.

(** The primary key of a [task_state] row, and the table holding at
    most one row for each key. *)
Definition key_of (r : state_row) : pystr * Z := (s_date r, s_task_id r).

Definition key_unique (rows : list state_row) : Prop := NoDup (key_of <$> rows).

(** Every [task_state] row names a task of the template table. *)
Definition fk_ok (d : db) : Prop :=
  ∀ r, r ∈ task_state d → ∃ t, t ∈ tasks d ∧ t_id t = s_task_id r.

(** The process right after start: no queue, no listener. *)
Definition st_init : state := {| heap := ∅; listeners := ∅ |}.

(** Every queue is one [sse_stream] made and is within its capacity. *)
Definition within_capacity (st : state) : Prop :=
  ∀ q o, heap st !! q = Some o →
         maxsize o = 1000%Z ∧ (length (items o) ≤ 1000)%nat.

(** One call of [api_state_post] with what it reads from its environment. *)
Record post_call := { pc_json : option post_body; pc_today : pystr; pc_now_ms : Z }.

Definition do_post (c : post_call) (w : world) : post_response * world :=
  api_state_post (pc_json c) (pc_today c) (pc_now_ms c) w.

(** A sequence of calls, one after the other. *)
Definition run_posts (calls : list post_call) (w : world) : world :=
  foldl (λ w c, (do_post c w).2) w calls.

(** The event a successful write publishes. *)
Definition event_of (date : pystr) (task_id : Z) (completed reviewed : bool) (now_ms : Z)
  : event :=
  {| ev_date := date;
     ev_changes := [{| c_task_id := task_id; c_completed := flag completed;
                       c_reviewed := flag reviewed |}];
     ev_seq := now_ms |}.

(** ** Further vocabulary: what a listener got, timetable rows, more examples *)

(** What one listener has got so far, against what was published so far. *)
Definition in_step (rec0 : list event) (v : view) (pubs0 : list event) : Prop :=
  rec0 ++ items (v_queue v) `prefix_of` pubs0
  ∧ (v_reg v = true → rec0 ++ items (v_queue v) = pubs0).

(** The listener of [st_one] reads once between four publications. *)
Definition schedule1 : list action :=
  [Publish ev0; Publish ev1; Next 0%nat; Publish ev2; Close 0%nat; Publish ev0].

(** The listener of [st_one] got two events, then its stream was closed. *)
Definition st_closed : state := (run [Publish ev0; Publish ev1; Close 0%nat] st_one).1.

(** The seeded database and one listener; task 3 is marked done. *)
Definition w_seed : world := {| w_db := db_seed; w_sse := st_one |}.

Definition body_done_3 : post_body :=
  {| b_date := Some (lit "2025-01-01"); b_task_id := Some 3%Z;
     b_completed := true; b_reviewed := false |}.

(** A row and the element [api_tasks] makes of it on a date. *)
Definition projected (U : UCD) {J : Type} (date : pystr) (t : task_row) (o : task_out J)
  : Prop :=
  o_id o = t_id t ∧ o_name o = t_name t ∧ o_must_review o = t_must_review t
  ∧ replace_date_part U (t_start t) date = Ok (o_start o)
  ∧ replace_date_part U (t_end t) date = Ok (o_end o).

(** A row one of whose two times does not project. *)
Definition unprojectable (U : UCD) (date : pystr) (t : task_row) : Prop :=
  replace_date_part U (t_start t) date = Raise ValueError
  ∨ replace_date_part U (t_end t) date = Raise ValueError.

(** ** Further vocabulary: enqueues of a trace, events of a run of writes *)

(** The queues a trace enqueues onto, in program order. *)
Definition puts_of (tr : list op) : list nat :=
  omap (λ o, match o with PutNowait q => Some q | _ => None end) tr.




(** A template with two spaces between date and time. *)
Definition ts_two_spaces : pystr := lit "2024-08-06  08:00".

(** A task that starts at no time of day, and a database with it alone. *)
Definition task_bad : task_row :=
  {| t_id := 1; t_name := lit "T1"; t_start := lit "2024-08-06 25:00";
     t_end := lit "2024-08-06 09:00"; t_predecessor := None; t_must_review := NO |}.

Definition db_bad : db := {| tasks := [task_bad]; task_state := [] |}.

Definition w_bad : world := {| w_db := db_bad; w_sse := st_init |}.

(** * Properties *)

(** Boolean comparisons on code points, as propositions. *)
Ltac bool_to_prop :=
  repeat match goal with
         | H : (_ || _) = true |- _ => apply orb_true_iff in H as [H|H]
         | H : (_ && _) = true |- _ => let H' := fresh in apply andb_true_iff in H as [H' H]
         | H : (_ <=? _) = true |- _ => apply N.leb_le in H
         | H : (_ <=? _) = false |- _ => apply N.leb_gt in H
         | H : (_ =? _) = true |- _ => apply N.eqb_eq in H
         | H : (_ =? _) = false |- _ => apply N.eqb_neq in H
         end.

(** ** Decimal digits *)

Lemma ascii_decimal_Some c d : ascii_decimal c = Some d ↔ 48 ≤ c ≤ 57 ∧ d = c - 48.
Proof.
  unfold ascii_decimal.
  destruct (48 <=? c) eqn:E1; destruct (c <=? 57) eqn:E2; simpl; bool_to_prop;
    split; try (intros [= <-]; lia); try (intros [? ->]; done); intros []; lia.
Qed.

Lemma py_isspace_not_decimal c : py_isspace c = true → ascii_decimal c = None.
Proof.
  intros H. destruct (ascii_decimal c) as [d|] eqn:E; [|done].
  apply ascii_decimal_Some in E as [E _]. unfold py_isspace in H.
  bool_to_prop; lia.
Qed.

Section DecimalFacts.
Context (U : UCD).

Lemma decimal_not_space c : py_isspace c = true → decimal U c = None.
Proof.
  unfold decimal. destruct (c <? 128).
  - apply py_isspace_not_decimal.
  - apply decimal_ext_not_space.
Qed.

End DecimalFacts.

(** ** [mr_truth] *)

(** C7: [mr_truth] answers true exactly when the stripped, lowercased
    input is one of 是, true, 1, y, yes.  Whatever the interpreter's
    Unicode tables, "是", "TRUE", "1" and "Yes" are true and "否", "",
    "0" and "no" are false. *)
Theorem mr_truth_spec (U : UCD) :
  (∀ v, mr_truth U v = true ↔
        lower U (strip v) ∈ [[0x662F]; lit "true"; lit "1"; lit "y"; lit "yes"])
  ∧ mr_truth U [0x662F] = true
  ∧ mr_truth U (lit "TRUE") = true
  ∧ mr_truth U (lit "1") = true
  ∧ mr_truth U (lit "Yes") = true
  ∧ mr_truth U [0x5426] = false
  ∧ mr_truth U [] = false
  ∧ mr_truth U (lit "0") = false
  ∧ mr_truth U (lit "no") = false.
Proof.
  repeat apply conj; try reflexivity.
  intros v. unfold mr_truth. apply bool_decide_eq_true.
Qed.

(** ** [api_state_get] *)

Lemma sum_if_partition (lst : list entry) :
  (sum_if (λ x, e_completed x && e_reviewed x) lst
   + sum_if (λ x, e_completed x && negb (e_reviewed x)) lst
   + sum_if (λ x, negb (e_completed x)) lst = length lst)%nat.
Proof.
  induction lst as [|x lst IH]; [done|].
  simpl. destruct (e_completed x), (e_reviewed x); simpl; lia.
Qed.

(** C10: the statistics of the status read partition the returned list:
    doneReviewed + doneUnreviewed + undone = total, and total is the
    number of entries of the list. *)
Theorem stats_partition (U : UCD) (d : db) (arg : option pystr) (today : pystr) :
  let r := api_state_get U d arg today in
  (doneReviewed (r_stats r) + doneUnreviewed (r_stats r) + undone (r_stats r)
   = total (r_stats r))%nat
  ∧ total (r_stats r) = length (r_list r).
Proof. simpl. split; [apply sum_if_partition | done]. Qed.

Lemma left_join_elem date ts ss t o :
  (t, o) ∈ left_join date ts ss ↔
  t ∈ ts ∧ match o with
           | None => filter (join_on date t) ss = []
           | Some s => s ∈ ss ∧ join_on date t s
           end.
Proof.
  unfold left_join. rewrite list_elem_of_bind. split.
  - intros (t' & Hin & Ht'). destruct (filter (join_on date t') ss) as [|m ms] eqn:E.
    + apply list_elem_of_singleton in Hin as [= -> ->]. done.
    + apply list_elem_of_fmap in Hin as (s & [= -> ->] & Hs).
      rewrite <- E in Hs. apply list_elem_of_filter in Hs as [? ?]. done.
  - intros [Ht Ho]. exists t. split; [|done]. destruct o as [s|].
    + destruct Ho as [Hs Hj].
      assert (s ∈ filter (join_on date t) ss) as Hf by (by apply list_elem_of_filter).
      destruct (filter (join_on date t) ss) as [|m ms] eqn:E.
      * by apply not_elem_of_nil in Hf.
      * by apply list_elem_of_fmap_2'  with s.
    + rewrite Ho. by apply list_elem_of_singleton.
Qed.

Lemma query_state_elem d date r :
  r ∈ query_state d date ↔ ∃ t o, (t, o) ∈ left_join date (tasks d) (task_state d)
                                  ∧ r = select_row (t, o).
Proof.
  unfold query_state. rewrite list_elem_of_fmap. split.
  - intros ([t o] & -> & Hin). rewrite merge_sort_Permutation in Hin. eauto.
  - intros (t & o & Hin & ->). exists (t, o). split; [done|].
    by rewrite merge_sort_Permutation.
Qed.

(** C6: a task of the template table with no [task_state] row for the
    date of the read is reported, and reported with completed = false and
    reviewed = false; the read itself always answers. *)
Theorem absent_row_defaults (U : UCD) (d : db) (arg : option pystr) (today : pystr)
    (t : task_row) :
  let r := api_state_get U d arg today in
  t ∈ tasks d →
  (∀ s, s ∈ task_state d → ¬ (s_task_id s = t_id t ∧ s_date s = r_date r)) →
  (∃ e, e ∈ r_list r ∧ e_id e = t_id t ∧ e_name e = t_name t
        ∧ e_completed e = false ∧ e_reviewed e = false)
  ∧ (∀ e, e ∈ r_list r → e_id e = t_id t →
          e_completed e = false ∧ e_reviewed e = false).
Proof.
  simpl. intros Ht Hnone.
  set (date := str_or arg today) in *.
  assert (∀ t', t_id t' = t_id t → filter (join_on date t') (task_state d) = []) as Hnil.
  { intros t' Hid. destruct (filter (join_on date t') (task_state d)) as [|s l] eqn:E; [done|].
    assert (s ∈ filter (join_on date t') (task_state d)) as Hs by (rewrite E; left).
    apply list_elem_of_filter in Hs as [[H1 H2] Hs]. destruct (Hnone s Hs).
    split; congruence. }
  split.
  - exists (to_entry (select_row (t, None))). split; [|done].
    apply list_elem_of_fmap_2, query_state_elem. exists t, None. split; [|done].
    apply left_join_elem. split; [done|]. by apply Hnil.
  - intros e He Hid.
    apply list_elem_of_fmap in He as (r & -> & Hr).
    apply query_state_elem in Hr as (t' & o & Hin & ->).
    apply left_join_elem in Hin as [Ht' Ho]. simpl in Hid.
    destruct o as [s|]; [|done].
    destruct Ho as [Hs [H1 H2]]. destruct (Hnone s Hs). split; congruence.
Qed.

Lemma absent_row_defaults_witness :
  let r := api_state_get ucd_latin db_seed (Some (lit "2025-01-01")) (lit "2024-08-06") in
  (∃ e, e ∈ r_list r ∧ e_id e = t_id task_T1 ∧ e_name e = t_name task_T1
        ∧ e_completed e = false ∧ e_reviewed e = false)
  ∧ (∀ e, e ∈ r_list r → e_id e = t_id task_T1 →
          e_completed e = false ∧ e_reviewed e = false).
Proof.
  apply (absent_row_defaults ucd_latin db_seed (Some (lit "2025-01-01")) (lit "2024-08-06")
           task_T1).
  - left.
  - intros s Hs [_ Hd]. simpl in Hd.
    repeat (apply elem_of_cons in Hs as [->|Hs]; [discriminate Hd|]).
    by apply not_elem_of_nil in Hs.
Defined.

(** ** [broadcast] *)

Lemma put_nowait_full o ev : is_full o → put_nowait o ev = Raise Full.
Proof.
  intros [H1 H2]. unfold put_nowait.
  by rewrite !bool_decide_eq_true_2.
Qed.

Lemma put_nowait_room o ev :
  ¬ is_full o → put_nowait o ev = Ok {| maxsize := maxsize o; items := items o ++ [ev] |}.
Proof.
  intros Hn. unfold put_nowait.
  destruct (bool_decide (0 < maxsize o)%Z) eqn:E1; [|done].
  destruct (bool_decide (maxsize o ≤ Z.of_nat (length (items o)))%Z) eqn:E2; [|done].
  apply bool_decide_eq_true in E1, E2. by destruct Hn.
Qed.

Lemma put_nowait_raises o ev e : put_nowait o ev = Raise e ↔ is_full o ∧ e = Full.
Proof.
  split.
  - intros H. destruct (decide (is_full o)) as [Hf|Hf].
    + rewrite put_nowait_full in H by done. by injection H as <-.
    + by rewrite put_nowait_room in H.
  - intros [Hf ->]. by apply put_nowait_full.
Qed.

Lemma put_ref_Ok q ev h h' :
  put_ref q ev h = Ok h' →
  ∃ o, h !! q = Some o ∧ ¬ is_full o
       ∧ h' = <[q := {| maxsize := maxsize o; items := items o ++ [ev] |}]> h.
Proof.
  unfold put_ref. destruct (h !! q) as [o|]; [|done].
  destruct (decide (is_full o)) as [Hf|Hf].
  - by rewrite put_nowait_full.
  - rewrite put_nowait_room by done. intros [= <-]. eauto.
Qed.

Lemma put_ref_try q ev h :
  match put_ref q ev h with
  | Ok h' => try_put ev (h !! q) = (h' !! q, false) ∧ ∀ p, p ≠ q → h' !! p = h !! p
  | Raise _ => try_put ev (h !! q) = (h !! q, true)
  end.
Proof.
  destruct (put_ref q ev h) as [h'|e] eqn:E.
  - apply put_ref_Ok in E as (o & Ho & Hf & ->). rewrite Ho. simpl.
    rewrite decide_False by done. rewrite lookup_insert_eq. split; [done|].
    intros p Hp. by rewrite lookup_insert_ne.
  - unfold put_ref in E. destruct (h !! q) as [o|]; [|done]. simpl.
    destruct (decide (is_full o)) as [Hf|Hf]; [done|].
    by rewrite put_nowait_room in E.
Qed.

Lemma deliver_spec ev l : ∀ h dead,
  NoDup l →
  (∀ q, (deliver ev l h dead).1 !! q
        = if decide (q ∈ l) then (try_put ev (h !! q)).1 else h !! q)
  ∧ (∀ q, q ∈ (deliver ev l h dead).2
          ↔ q ∈ dead ∨ (q ∈ l ∧ (try_put ev (h !! q)).2 = true)).
Proof.
  induction l as [|q0 l IH]; intros h dead Hnd.
  - simpl. split; [done|]. intros q. rewrite elem_of_nil. tauto.
  - apply NoDup_cons in Hnd as [Hq0 Hnd]. simpl.
    pose proof (put_ref_try q0 ev h) as Hp.
    destruct (put_ref q0 ev h) as [h'|e].
    + destruct Hp as [Hp Hother]. destruct (IH h' dead Hnd) as [IH1 IH2]. split.
      * intros q. rewrite IH1. destruct (decide (q = q0)) as [->|Hne].
        -- rewrite decide_False by done. rewrite decide_True by left. by rewrite Hp.
        -- rewrite Hother by done.
           destruct (decide (q ∈ l)); [rewrite decide_True by (by right)
                                      |rewrite decide_False by (by intros [?|?]%elem_of_cons)];
             done.
      * intros q. rewrite IH2, elem_of_cons. destruct (decide (q = q0)) as [->|Hne].
        -- rewrite Hp. simpl. split; [intros [?|[? ?]]; [by left|done]|].
           intros [?|[_ ?]]; [by left|done].
        -- rewrite Hother by done. tauto.
    + destruct (IH h (dead ++ [q0]) Hnd) as [IH1 IH2]. split.
      * intros q. rewrite IH1. destruct (decide (q = q0)) as [->|Hne].
        -- rewrite decide_False by done. rewrite decide_True by left. by rewrite Hp.
        -- destruct (decide (q ∈ l)); [rewrite decide_True by (by right)
                                      |rewrite decide_False by (by intros [?|?]%elem_of_cons)];
             done.
      * intros q. rewrite IH2, elem_of_app, list_elem_of_singleton, elem_of_cons.
        destruct (decide (q = q0)) as [->|Hne].
        -- rewrite Hp. simpl. tauto.
        -- tauto.
Qed.

Lemma discard_all_elem dead : ∀ (s : gset nat) q, q ∈ discard_all dead s ↔ q ∈ s ∧ q ∉ dead.
Proof.
  unfold discard_all. induction dead as [|d dead IH]; intros s q; simpl.
  - rewrite elem_of_nil. tauto.
  - rewrite IH, elem_of_difference, elem_of_singleton, elem_of_cons. tauto.
Qed.

(** The queue behind each reference after [broadcast]. *)
Lemma broadcast_heap ev st q :
  heap (broadcast ev st) !! q
  = if decide (q ∈ listeners st) then (try_put ev (heap st !! q)).1 else heap st !! q.
Proof.
  unfold broadcast, broadcast_ops.
  destruct (deliver ev (elements (listeners st)) (heap st) []) as [h dead] eqn:E. simpl.
  destruct (deliver_spec ev (elements (listeners st)) (heap st) [] (NoDup_elements _)) as [H _].
  rewrite E in H. simpl in H. rewrite H.
  destruct (decide (q ∈ listeners st)) as [Hq|Hq].
  - rewrite decide_True; [done|]. by apply elem_of_elements.
  - rewrite decide_False; [done|]. by rewrite elem_of_elements.
Qed.

(** The references still in [listeners] after [broadcast]. *)
Lemma broadcast_listeners ev st q :
  q ∈ listeners (broadcast ev st)
  ↔ q ∈ listeners st ∧ (try_put ev (heap st !! q)).2 = false.
Proof.
  unfold broadcast, broadcast_ops.
  destruct (deliver ev (elements (listeners st)) (heap st) []) as [h dead] eqn:E. simpl.
  destruct (deliver_spec ev (elements (listeners st)) (heap st) [] (NoDup_elements _)) as [_ H].
  rewrite E in H. simpl in H. rewrite discard_all_elem, H, elem_of_nil, elem_of_elements.
  clear. destruct ((try_put ev (heap st !! q)).2); intuition congruence.
Qed.

Lemma wf_broadcast ev st : wf st → wf (broadcast ev st).
Proof.
  unfold wf. intros Hwf q Hq.
  apply broadcast_listeners in Hq as [Hq _].
  apply elem_of_dom. rewrite broadcast_heap, decide_True by done.
  apply Hwf, elem_of_dom in Hq as [o Ho]. rewrite Ho. simpl.
  destruct (decide (is_full o)); simpl; eauto.
Qed.

(** What [broadcast] does to one registered listener. *)
Lemma broadcast_slot (ev : event) (st : state) (q : nat) (o : Queue) :
  q ∈ listeners st →
  heap st !! q = Some o →
  let st' := broadcast ev st in
  (is_full o → heap st' !! q = Some o ∧ q ∉ listeners st')
  ∧ (¬ is_full o →
     heap st' !! q = Some {| maxsize := maxsize o; items := items o ++ [ev] |}
     ∧ q ∈ listeners st')
  ∧ (q ∉ listeners st' ↔ ∃ e, put_nowait o ev = Raise e)
  ∧ (∀ e, put_nowait o ev = Raise e → e = Full ∧ is_full o).
Proof.
  intros Hq Ho st'. subst st'.
  rewrite broadcast_heap, decide_True by done.
  rewrite broadcast_listeners. rewrite Ho. simpl.
  destruct (decide (is_full o)) as [Hf|Hf]; simpl.
  - repeat apply conj.
    + intros _. split; [done|]. by intros [_ ?].
    + done.
    + intros _. exists Full. by apply put_nowait_full.
    + by intros _ [_ ?].
    + intros e He%put_nowait_raises. tauto.
  - repeat apply conj.
    + done.
    + done.
    + intros Hn. destruct Hn. done.
    + intros [e [? _]%put_nowait_raises]. done.
    + intros e He%put_nowait_raises. tauto.
Qed.

(** C2 (amended): a listener whose queue is full when [broadcast] runs
    does not get the event, its queue is left as it was, and it is
    removed from [listeners] by that very call; a listener whose queue
    has room gets the event at the tail and stays registered, whatever
    happens to the others.  A listener is removed exactly when its
    [put_nowait] raised, and the only exception [put_nowait] raises is
    [Full].  [broadcast] itself is total: every exception of the
    enqueue is caught. *)
Theorem broadcast_backpressure (ev : event) (st : state) (q : nat) (o : Queue) :
  q ∈ listeners st →
  heap st !! q = Some o →
  let st' := broadcast ev st in
  (is_full o → heap st' !! q = Some o ∧ q ∉ listeners st')
  ∧ (¬ is_full o →
     heap st' !! q = Some {| maxsize := maxsize o; items := items o ++ [ev] |}
     ∧ q ∈ listeners st')
  ∧ (q ∉ listeners st' ↔ ∃ e, put_nowait o ev = Raise e)
  ∧ (∀ e, put_nowait o ev = Raise e → e = Full ∧ is_full o).
Proof. apply broadcast_slot. Qed.

Lemma q_full_is_full : is_full q_full.
Proof. split; by vm_compute. Qed.

Lemma broadcast_backpressure_witness :
  let st' := broadcast ev0 st_two in
  (is_full q_full → heap st' !! 0%nat = Some q_full ∧ 0%nat ∉ listeners st')
  ∧ (¬ is_full q_full →
     heap st' !! 0%nat = Some {| maxsize := maxsize q_full; items := items q_full ++ [ev0] |}
     ∧ 0%nat ∈ listeners st')
  ∧ (0%nat ∉ listeners st' ↔ ∃ e, put_nowait q_full ev0 = Raise e)
  ∧ (∀ e, put_nowait q_full ev0 = Raise e → e = Full ∧ is_full q_full).
Proof.
  apply (broadcast_backpressure ev0 st_two 0 q_full).
  - simpl. set_solver.
  - reflexivity.
Defined.

(** C2 as the specification words it fails: here the queue of listener 0
    is full, and the call that drops the event also removes the listener
    from [listeners]. *)
Lemma broadcast_full_deregisters_counterexample :
  0%nat ∈ listeners st_two
  ∧ heap st_two !! 0%nat = Some q_full
  ∧ is_full q_full
  ∧ heap (broadcast ev0 st_two) !! 0%nat = Some q_full
  ∧ (0%nat ∉ listeners (broadcast ev0 st_two))
  ∧ 1%nat ∈ listeners (broadcast ev0 st_two).
Proof.
  assert (0%nat ∈ listeners st_two) as H0 by (simpl; set_solver).
  assert (1%nat ∈ listeners st_two) as H1 by (simpl; set_solver).
  pose proof (broadcast_slot ev0 st_two 0 q_full H0 eq_refl) as (Hfull & _).
  pose proof (broadcast_slot ev0 st_two 1 (Queue_new 1000) H1 eq_refl) as (_ & Hroom & _).
  destruct (Hfull q_full_is_full) as [Hh Hl].
  repeat apply conj;
    first [ done | apply q_full_is_full
          | apply Hroom; intros [_ Hle]; simpl in Hle; lia ].
Qed.

(** ** The lock around [broadcast] *)

Lemma puts_see_lock_held body rest :
  Forall (λ o, o ≠ Release) body →
  puts_see_lock true true (body ++ rest) = puts_see_lock true true rest.
Proof.
  induction 1 as [|o body Ho _ IH]; [done|].
  simpl. destruct o; try done.
Qed.

Lemma puts_of_puts snap : puts_of (PutNowait <$> snap) = snap.
Proof. induction snap as [|q snap IH]; [done|]. rewrite fmap_cons. cbn. by f_equal. Qed.

Lemma puts_of_discards dead : puts_of (SetDiscard <$> dead) = [].
Proof. induction dead as [|q dead IH]; [done|]. by rewrite fmap_cons. Qed.

Lemma puts_of_body snap dead :
  puts_of (Snapshot snap :: (PutNowait <$> snap) ++ (SetDiscard <$> dead)) = snap.
Proof.
  change (puts_of (Snapshot snap :: (PutNowait <$> snap) ++ (SetDiscard <$> dead)))
    with (puts_of ((PutNowait <$> snap) ++ (SetDiscard <$> dead))).
  unfold puts_of. rewrite omap_app. fold (puts_of (PutNowait <$> snap)).
  fold (puts_of (SetDiscard <$> dead)).
  by rewrite puts_of_puts, puts_of_discards, app_nil_r.
Qed.

(** C9 (amended): [broadcast] acquires [lst_lock] once, first, and
    releases it once, last; the snapshot of [listeners], one
    [put_nowait] for each listener of the snapshot (the enqueues of the
    trace are the snapshot itself, no listener twice) and the removal
    of the dead ones all happen in between, with the lock held. *)
Theorem broadcast_holds_lock (ev : event) (st : state) :
  ∃ body,
    (broadcast_ops ev st).2 = [Acquire] ++ body ++ [Release]
    ∧ Forall (λ o, o ≠ Acquire ∧ o ≠ Release) body
    ∧ head body = Some (Snapshot (elements (listeners st)))
    ∧ (∀ q, PutNowait q ∈ body ↔ q ∈ listeners st)
    ∧ (∀ q, SetDiscard q ∈ body ↔ q ∈ listeners st ∧ q ∉ listeners (broadcast ev st))
    ∧ puts_see_lock true false ((broadcast_ops ev st).2) = true
    ∧ puts_of body = elements (listeners st)
    ∧ NoDup (puts_of body).
Proof.
  unfold broadcast, broadcast_ops.
  destruct (deliver_spec ev (elements (listeners st)) (heap st) [] (NoDup_elements _))
    as [_ Hdead].
  destruct (deliver ev (elements (listeners st)) (heap st) []) as [h dead]. simpl in *.
  set (snap := elements (listeners st)) in *.
  exists (Snapshot snap :: (PutNowait <$> snap) ++ (SetDiscard <$> dead)).
  assert (Forall (λ o, o ≠ Acquire ∧ o ≠ Release)
            (Snapshot snap :: (PutNowait <$> snap) ++ (SetDiscard <$> dead))) as Hbody.
  { apply Forall_cons. split; [done|]. apply Forall_app. split.
    - apply Forall_fmap, Forall_true. done.
    - apply Forall_fmap, Forall_true. done. }
  repeat apply conj.
  - simpl. by rewrite <- app_assoc.
  - done.
  - done.
  - intros q. split.
    + intros Hin. apply elem_of_cons in Hin as [?|Hin]; [done|].
      apply elem_of_app in Hin as [Hin|Hin].
      * apply list_elem_of_fmap in Hin as (p & [= <-] & Hp). by apply elem_of_elements.
      * apply list_elem_of_fmap in Hin as (p & ? & _). done.
    + intros Hin. right. apply elem_of_app. left.
      apply list_elem_of_fmap_2. by apply elem_of_elements.
  - intros q. split.
    + intros Hin. apply elem_of_cons in Hin as [?|Hin]; [done|].
      apply elem_of_app in Hin as [Hin|Hin].
      * apply list_elem_of_fmap in Hin as (p & ? & _). done.
      * apply list_elem_of_fmap in Hin as (p & [= <-] & Hp).
        pose proof Hp as Hp'. apply Hdead in Hp' as [[]%elem_of_nil|[Hq _]].
        apply elem_of_elements in Hq. split; [done|].
        rewrite discard_all_elem. intros [_ Hn]. by apply Hn.
    + intros [Hq Hn]. right. apply elem_of_app. right.
      apply list_elem_of_fmap_2. rewrite discard_all_elem in Hn.
      destruct (decide (q ∈ dead)); [done|]. destruct Hn. done.
  - simpl. rewrite app_assoc, puts_see_lock_held; [done|].
    apply Forall_cons in Hbody as [_ Hbody].
    eapply Forall_impl; [apply Hbody|]. by intros o [_ ?].
  - apply puts_of_body.
  - rewrite puts_of_body. apply NoDup_elements.
Qed.

(** C9 as the specification words it fails: with one listener, the
    [put_nowait] comes before the release of the lock, not after it. *)
Lemma broadcast_put_under_lock_counterexample :
  (broadcast_ops ev0 st_one).2
  = [Acquire; Snapshot [0%nat]; PutNowait 0; Release]
  ∧ puts_see_lock false false ((broadcast_ops ev0 st_one).2) = false.
Proof. split; by vm_compute. Qed.

(** ** One listener's view of a schedule *)

Lemma view_of_Some q st v :
  view_of q st = Some v ↔
  heap st !! q = Some (v_queue v) ∧ v_reg v = bool_decide (q ∈ listeners st).
Proof.
  unfold view_of. destruct (heap st !! q) as [o|]; simpl.
  - split.
    + by intros [= <-].
    + intros [[= ->] Hr]. destruct v as [o r]. simpl in *. by subst.
  - split; [done|]. by intros [? _].
Qed.

Lemma step_view q a st v :
  view_of q st = Some v →
  view_of q (step a st).1 = Some (view_step q a v).1
  ∧ received q (step a st).2 = (view_step q a v).2.
Proof.
  intros [Ho Hr]%view_of_Some. destruct v as [o r]. simpl in *. subst r.
  destruct a as [ev|p| |p]; simpl.
  - (* Publish *)
    assert (heap (broadcast ev st) !! q
            = if decide (q ∈ listeners st) then (try_put ev (Some o)).1 else Some o) as Hh
      by (by rewrite broadcast_heap, Ho).
    pose proof (broadcast_listeners ev st q) as Hl. rewrite Ho in Hl. simpl in Hh, Hl.
    destruct (decide (q ∈ listeners st)) as [Hq|Hq].
    + rewrite (bool_decide_eq_true_2 _ Hq).
      destruct (decide (is_full o)) as [Hf|Hf]; simpl in *;
        (split; [|done]); apply view_of_Some; simpl; (split; [done|]); symmetry.
      * apply bool_decide_eq_false. rewrite Hl. by intros [_ ?].
      * apply bool_decide_eq_true. by rewrite Hl.
    + rewrite (bool_decide_eq_false_2 _ Hq). simpl.
      split; [|done]. apply view_of_Some. simpl. split; [done|]. symmetry.
      apply bool_decide_eq_false. rewrite Hl. by intros [? _].
  - (* Next *)
    unfold sse_next. destruct (decide (p = q)) as [->|Hne].
    + rewrite Ho. destruct (get o) as [[e o']|]; simpl.
      * rewrite (bool_decide_eq_true_2 (q = q) eq_refl). split; [|done].
        apply view_of_Some. simpl. by rewrite lookup_insert_eq.
      * split; [|done]. by apply view_of_Some.
    + destruct (heap st !! p) as [op|]; simpl; [|by split; [apply view_of_Some|]].
      destruct (get op) as [[e o']|]; simpl; [|by split; [apply view_of_Some|]].
      rewrite (bool_decide_eq_false_2 (p = q) Hne). split; [|done].
      apply view_of_Some. simpl. by rewrite lookup_insert_ne.
  - (* Open *)
    split; [|done]. apply view_of_Some. simpl.
    assert (fresh (dom (heap st)) ≠ q) as Hne.
    { intros <-. apply (is_fresh (dom (heap st))). apply elem_of_dom. eauto. }
    rewrite lookup_insert_ne by done. split; [done|].
    apply bool_decide_ext. rewrite elem_of_union, elem_of_singleton. intuition congruence.
  - (* Close *)
    destruct (decide (p = q)) as [->|Hne]; simpl;
      (split; [|done]); apply view_of_Some; simpl; (split; [done|]).
    + symmetry. apply bool_decide_eq_false.
      rewrite elem_of_difference, elem_of_singleton. intuition congruence.
    + apply bool_decide_ext. rewrite elem_of_difference, elem_of_singleton. intuition congruence.
Qed.

Lemma run_view q acts : ∀ st v,
  view_of q st = Some v →
  view_of q (run acts st).1 = Some (view_run q acts v).1
  ∧ received q (run acts st).2 = (view_run q acts v).2.
Proof.
  induction acts as [|a acts IH]; intros st v Hv; [done|].
  simpl. destruct (step_view q a st v Hv) as [Hv1 Hout1].
  destruct (step a st) as [st1 out1]. destruct (view_step q a v) as [v1 o1].
  simpl in *. destruct (IH st1 v1 Hv1) as [Hv2 Hout2].
  destruct (run acts st1) as [st2 out2]. destruct (view_run q acts v1) as [v2 o2].
  simpl in *. split; [done|]. unfold received in *. by rewrite omap_app, Hout1, Hout2.
Qed.

Section OneListener.
Context (q : nat) (cap : Z) (Hcap : (0 < cap)%Z).

(** While the total number of published events is within the
    capacity, nothing is dropped: what was handed over followed by
    what is pending is the published sequence. *)
Lemma view_run_all acts : ∀ v rec0 pubs0,
  Close q ∉ acts →
  maxsize (v_queue v) = cap →
  v_reg v = true →
  rec0 ++ items (v_queue v) = pubs0 →
  (Z.of_nat (length (pubs0 ++ published acts)) ≤ cap)%Z →
  maxsize (v_queue (view_run q acts v).1) = cap
  ∧ v_reg (view_run q acts v).1 = true
  ∧ (rec0 ++ (view_run q acts v).2) ++ items (v_queue (view_run q acts v).1)
    = pubs0 ++ published acts.
Proof.
  induction acts as [|a acts IH]; intros v rec0 pubs0 Hcl Hmax Hreg Hinv Hlen.
  { simpl. rewrite !app_nil_r. done. }
  apply not_elem_of_cons in Hcl as [Ha Hcl].
  destruct v as [[m its] r]. simpl in Hmax, Hreg, Hinv. subst m r.
  destruct a as [ev|p| |p]; simpl.
  - (* Publish *)
    simpl in Hlen.
    assert (length its < length (pubs0 ++ ev :: published acts))%nat as Hlt.
    { rewrite <- Hinv, !length_app. simpl. lia. }
    destruct (decide (is_full {| maxsize := cap; items := its |})) as [[_ Hf]|Hf].
    { simpl in Hf. lia. }
    assert (rec0 ++ its ++ [ev] = pubs0 ++ [ev]) as P1 by (by rewrite app_assoc, Hinv).
    assert (Z.of_nat (length ((pubs0 ++ [ev]) ++ published acts)) ≤ cap)%Z as P2
        by (by rewrite <- app_assoc).
    pose proof (IH {| v_queue := {| maxsize := cap; items := its ++ [ev] |};
                      v_reg := true |} rec0 (pubs0 ++ [ev]) Hcl eq_refl eq_refl P1 P2)
      as (H1 & H2 & H3).
    destruct (view_run q acts _) as [v2 out2]. simpl in *.
    by rewrite H3, <- app_assoc.
  - (* Next *)
    destruct (decide (p = q)) as [->|Hne].
    + unfold get. simpl. destruct its as [|e its].
      * specialize (IH {| v_queue := {| maxsize := cap; items := [] |}; v_reg := true |}
                      rec0 pubs0 Hcl eq_refl eq_refl Hinv Hlen).
        by destruct (view_run q acts _) as [v2 out2].
      * assert ((rec0 ++ [e]) ++ its = pubs0) as P1 by (by rewrite <- app_assoc).
        pose proof (IH {| v_queue := {| maxsize := cap; items := its |}; v_reg := true |}
                      (rec0 ++ [e]) pubs0 Hcl eq_refl eq_refl P1 Hlen) as (H1 & H2 & H3).
        destruct (view_run q acts _) as [v2 out2]. simpl in *.
        rewrite <- H3. by rewrite <- !app_assoc.
    + specialize (IH {| v_queue := {| maxsize := cap; items := its |}; v_reg := true |}
                    rec0 pubs0 Hcl eq_refl eq_refl Hinv Hlen).
      by destruct (view_run q acts _) as [v2 out2].
  - (* Open *)
    specialize (IH {| v_queue := {| maxsize := cap; items := its |}; v_reg := true |}
                  rec0 pubs0 Hcl eq_refl eq_refl Hinv Hlen).
    by destruct (view_run q acts _) as [v2 out2].
  - (* Close *)
    destruct (decide (p = q)) as [->|Hne]; [done|].
    specialize (IH {| v_queue := {| maxsize := cap; items := its |}; v_reg := true |}
                  rec0 pubs0 Hcl eq_refl eq_refl Hinv Hlen).
    by destruct (view_run q acts _) as [v2 out2].
Qed.

(** While the listener reads nothing, its queue holds the first [cap]
    published events, and it is registered as long as none was
    refused. *)
Lemma view_run_unread acts : ∀ v pubs0,
  Close q ∉ acts →
  Next q ∉ acts →
  maxsize (v_queue v) = cap →
  items (v_queue v) = take (Z.to_nat cap) pubs0 →
  (v_reg v = true ↔ (Z.of_nat (length pubs0) ≤ cap)%Z) →
  (view_run q acts v).2 = []
  ∧ maxsize (v_queue (view_run q acts v).1) = cap
  ∧ items (v_queue (view_run q acts v).1) = take (Z.to_nat cap) (pubs0 ++ published acts)
  ∧ (v_reg (view_run q acts v).1 = true
     ↔ (Z.of_nat (length (pubs0 ++ published acts)) ≤ cap)%Z).
Proof.
  induction acts as [|a acts IH]; intros v pubs0 Hcl Hnx Hmax Hits Hreg.
  { simpl. rewrite !app_nil_r. done. }
  apply not_elem_of_cons in Hcl as [Hc Hcl].
  apply not_elem_of_cons in Hnx as [Hn Hnx].
  destruct v as [[m its] r]. simpl in Hmax, Hits, Hreg. subst m its.
  assert (∀ v', v' = {| v_queue := {| maxsize := cap; items := take (Z.to_nat cap) pubs0 |};
                        v_reg := r |} →
          (view_run q acts v').2 = []
          ∧ maxsize (v_queue (view_run q acts v').1) = cap
          ∧ items (v_queue (view_run q acts v').1)
            = take (Z.to_nat cap) (pubs0 ++ published acts)
          ∧ (v_reg (view_run q acts v').1 = true
             ↔ (Z.of_nat (length (pubs0 ++ published acts)) ≤ cap)%Z)) as Hsame.
  { intros v' ->. by apply IH. }
  destruct a as [ev|p| |p]; simpl.
  - (* Publish *)
    assert (∀ v1,
              items (v_queue v1) = take (Z.to_nat cap) (pubs0 ++ [ev]) →
              maxsize (v_queue v1) = cap →
              (v_reg v1 = true ↔ (Z.of_nat (length (pubs0 ++ [ev])) ≤ cap)%Z) →
              (view_run q acts v1).2 = []
              ∧ maxsize (v_queue (view_run q acts v1).1) = cap
              ∧ items (v_queue (view_run q acts v1).1)
                = take (Z.to_nat cap) ((pubs0 ++ [ev]) ++ published acts)
              ∧ (v_reg (view_run q acts v1).1 = true
                 ↔ (Z.of_nat (length ((pubs0 ++ [ev]) ++ published acts)) ≤ cap)%Z))
      as Hnext by (intros v1 ? ? ?; by apply IH).
    clear IH Hsame.
    assert (length (pubs0 ++ [ev]) = S (length pubs0)) as Hlen
        by (rewrite length_app; simpl; lia).
    destruct r.
    + assert (Z.of_nat (length pubs0) ≤ cap)%Z as Hle by (by apply Hreg).
      destruct (decide (is_full _)) as [Hf|Hf]; unfold is_full in Hf; simpl in Hf;
        rewrite length_take in Hf.
      * specialize (Hnext {| v_queue := {| maxsize := cap;
                                           items := take (Z.to_nat cap) pubs0 |};
                             v_reg := false |}).
        destruct (view_run q acts _) as [v2 out2]. simpl in *.
        rewrite (cons_middle ev pubs0), app_assoc. apply Hnext.
        -- rewrite take_app_le by lia. done.
        -- done.
        -- rewrite Hlen. split; [done|lia].
      * specialize (Hnext {| v_queue := {| maxsize := cap;
                                           items := take (Z.to_nat cap) pubs0 ++ [ev] |};
                             v_reg := true |}).
        destruct (view_run q acts _) as [v2 out2]. simpl in *.
        rewrite (cons_middle ev pubs0), app_assoc. apply Hnext.
        -- rewrite !take_ge; [done|lia|lia].
        -- done.
        -- rewrite Hlen. split; [lia|done].
    + assert (¬ (Z.of_nat (length pubs0) ≤ cap)%Z) as Hgt by (by intros ?%Hreg).
      specialize (Hnext {| v_queue := {| maxsize := cap;
                                         items := take (Z.to_nat cap) pubs0 |};
                           v_reg := false |}).
      destruct (view_run q acts _) as [v2 out2]. simpl in *.
        rewrite (cons_middle ev pubs0), app_assoc. apply Hnext.
      * rewrite take_app_le by lia. done.
      * done.
      * rewrite Hlen. split; [done|lia].
  - (* Next *)
    destruct (decide (p = q)) as [->|Hne]; [done|].
    specialize (Hsame _ eq_refl). by destruct (view_run q acts _) as [v2 out2].
  - (* Open *)
    specialize (Hsame _ eq_refl). by destruct (view_run q acts _) as [v2 out2].
  - (* Close *)
    destruct (decide (p = q)) as [->|Hne]; [done|].
    specialize (Hsame _ eq_refl). by destruct (view_run q acts _) as [v2 out2].
Qed.

(** Reading [n] times hands over the first [n] pending events, oldest first. *)
Lemma view_run_drain n : ∀ v,
  (view_run q (replicate n (Next q)) v).2 = take n (items (v_queue v)).
Proof.
  induction n as [|n IH]; intros v; [done|].
  simpl. rewrite decide_True by done. unfold get.
  destruct v as [[m its] r]. simpl. destruct its as [|e its].
  - specialize (IH {| v_queue := {| maxsize := m; items := [] |}; v_reg := r |}).
    destruct (view_run q (replicate n (Next q)) _) as [v2 out2]. simpl in *.
    rewrite IH. by rewrite take_nil.
  - specialize (IH {| v_queue := {| maxsize := m; items := its |}; v_reg := r |}).
    destruct (view_run q (replicate n (Next q)) _) as [v2 out2]. simpl in *.
    by rewrite IH.
Qed.
End OneListener.

Lemma pending_view q st v : view_of q st = Some v → pending q st = items (v_queue v).
Proof. intros [Ho _]%view_of_Some. unfold pending. by rewrite Ho. Qed.

Lemma listeners_view q st v : view_of q st = Some v → (q ∈ listeners st ↔ v_reg v = true).
Proof. intros [_ ->]%view_of_Some. by rewrite bool_decide_eq_true. Qed.

(** C4: a listener [q] registered with an empty queue of capacity [cap],
    under any schedule that does not close its stream.
    If the schedule publishes at most [cap] events, the listener stays
    registered, the events it was handed followed by those pending in
    its queue are the published events in publish order, and reading on
    hands over exactly the published sequence.
    If the listener reads nothing, its queue holds the first [cap]
    published events: never more than [cap], a prefix of the publish
    order. *)
Theorem fifo_delivery (st : state) (q : nat) (cap : Z) (acts : list action) :
  q ∈ listeners st →
  heap st !! q = Some (Queue_new cap) →
  (0 < cap)%Z →
  Close q ∉ acts →
  let st' := (run acts st).1 in
  let out := (run acts st).2 in
  let N := length (published acts) in
  ((Z.of_nat N ≤ cap)%Z →
   q ∈ listeners st'
   ∧ received q out ++ pending q st' = published acts
   ∧ received q (out ++ (run (replicate N (Next q)) st').2) = published acts)
  ∧ (Next q ∉ acts →
     received q out = []
     ∧ pending q st' = take (Z.to_nat cap) (published acts)
     ∧ (Z.of_nat (length (pending q st')) ≤ cap)%Z
     ∧ pending q st' `prefix_of` published acts
     ∧ (q ∈ listeners st' ↔ (Z.of_nat N ≤ cap)%Z)).
Proof.
  intros Hq Ho Hcap Hcl st' out N.
  set (v := {| v_queue := Queue_new cap; v_reg := true |}).
  assert (view_of q st = Some v) as Hv.
  { apply view_of_Some. split; [done|]. symmetry. by apply bool_decide_eq_true. }
  destruct (run_view q acts st v Hv) as [Hv' Hout]. fold st' in Hv'. fold out in Hout.
  split.
  - intros HN.
    destruct (view_run_all q cap acts v [] [] Hcl eq_refl eq_refl eq_refl HN)
      as (Hmax & Hreg & Hall).
    simpl in Hall. rewrite <- Hout in Hall.
    rewrite <- (pending_view _ _ _ Hv') in Hall.
    split; [by apply (listeners_view _ _ _ Hv')|]. split; [done|].
    destruct (run_view q (replicate N (Next q)) st' _ Hv') as [_ Hdrain].
    unfold received in *. rewrite omap_app, Hdrain, view_run_drain.
    rewrite <- (pending_view _ _ _ Hv'). rewrite take_ge; [done|].
    unfold N. rewrite <- Hall, length_app. lia.
  - intros Hnx.
    destruct (view_run_unread q cap Hcap acts v [] Hcl Hnx eq_refl) as (Hnil & Hmax & Hits & Hreg).
    { simpl. by rewrite take_nil. }
    { simpl. split; [lia|done]. }
    simpl in Hits, Hreg. rewrite <- (pending_view _ _ _ Hv') in Hits.
    rewrite Hout, Hnil, Hits. repeat apply conj.
    + done.
    + done.
    + rewrite length_take. lia.
    + apply prefix_take.
    + by rewrite (listeners_view _ _ _ Hv'), Hreg.
    + by rewrite (listeners_view _ _ _ Hv'), Hreg.
Qed.

Lemma fifo_delivery_witness :
  let st' := (run schedule0 st_one).1 in
  let out := (run schedule0 st_one).2 in
  let N := length (published schedule0) in
  ((Z.of_nat N ≤ 1000)%Z →
   0%nat ∈ listeners st'
   ∧ received 0 out ++ pending 0 st' = published schedule0
   ∧ received 0 (out ++ (run (replicate N (Next 0%nat)) st').2) = published schedule0)
  ∧ (Next 0%nat ∉ schedule0 →
     received 0 out = []
     ∧ pending 0 st' = take (Z.to_nat 1000) (published schedule0)
     ∧ (Z.of_nat (length (pending 0 st')) ≤ 1000)%Z
     ∧ pending 0 st' `prefix_of` published schedule0
     ∧ (0%nat ∈ listeners st' ↔ (Z.of_nat N ≤ 1000)%Z)).
Proof.
  apply (fifo_delivery st_one 0 1000 schedule0).
  - apply (bool_decide_unpack _). by vm_compute.
  - reflexivity.
  - lia.
  - unfold schedule0. intros H.
    repeat (apply elem_of_cons in H as [H|H]; [discriminate H|]).
    by apply elem_of_nil in H.
Defined.

(** ** [replace_date_part] *)

#[local] Arguments N.eqb : simpl never.
#[local] Arguments N.leb : simpl never.
#[local] Arguments N.ltb : simpl never.

Section StripFacts.
Implicit Types s r a : pystr.

Lemma lstrip_nonspace s : nonspace s → lstrip s = s.
Proof. intros Hs. destruct Hs as [|c s Hc _]; [done|]. simpl. by rewrite Hc. Qed.

Lemma rstrip_app_nonspace s r : r ≠ [] → nonspace r → rstrip (s ++ r) = s ++ r.
Proof.
  intros Hr Hns. unfold rstrip. rewrite rev_app_distr.
  destruct (rev r) as [|c r'] eqn:E.
  { apply (f_equal (@rev N)) in E. rewrite rev_involutive in E. done. }
  assert (py_isspace c = false) as Hc.
  { unfold nonspace in Hns. rewrite Forall_forall in Hns. apply Hns.
    apply list_elem_of_In, in_rev. rewrite E. by left. }
  simpl. rewrite Hc. change (c :: r' ++ rev s) with ((c :: r') ++ rev s).
  rewrite <- E, <- rev_app_distr. apply rev_involutive.
Qed.

Lemma rstrip_nonspace r : r ≠ [] → nonspace r → rstrip r = r.
Proof. apply (rstrip_app_nonspace [] r). Qed.

Lemma rstrip_before a r :
  r ≠ [] → nonspace r → rstrip (a ++ SPACE :: r) = a ++ SPACE :: r.
Proof.
  intros Hr Hns. rewrite (cons_middle SPACE a r), app_assoc.
  by apply rstrip_app_nonspace.
Qed.

Lemma strip_nonspace s : nonspace s → strip s = s.
Proof.
  intros Hs. unfold strip. rewrite lstrip_nonspace by done.
  destruct s as [|c s]; [done|].
  by apply (rstrip_app_nonspace [] (c :: s)).
Qed.

Lemma nonspace_no_SPACE s : nonspace s → str_contains SPACE s = false.
Proof.
  unfold str_contains. induction 1 as [|c s Hc _ IH]; [done|]. simpl. rewrite IH.
  destruct (SPACE =? c) eqn:E; [|done]. apply N.eqb_eq in E as <-. by vm_compute in Hc.
Qed.

Lemma split1_app a r :
  str_contains SPACE a = false → split1 SPACE (a ++ SPACE :: r) = [a; r].
Proof.
  induction a as [|c a IH]; intros Ha; [done|].
  simpl in *. apply orb_false_iff in Ha as [Hc Ha].
  rewrite N.eqb_sym, Hc. by rewrite IH.
Qed.

Lemma contains_app a r : str_contains SPACE (a ++ SPACE :: r) = true.
Proof. unfold str_contains. rewrite existsb_app. simpl. by rewrite orb_true_r. Qed.

(** Stripping a string that ends in a time text keeps the text, and
    what is left before its last separating space has no space. *)
Lemma lstrip_before a r :
  str_contains SPACE a = false → r ≠ [] → nonspace r →
  lstrip (a ++ SPACE :: r) = r
  ∨ ∃ a', str_contains SPACE a' = false ∧ lstrip (a ++ SPACE :: r) = a' ++ SPACE :: r.
Proof.
  intros Ha Hr Hns. induction a as [|c a IH].
  - left. simpl. by apply lstrip_nonspace.
  - simpl in Ha. apply orb_false_iff in Ha as [Hc Ha]. simpl.
    destruct (py_isspace c) eqn:E.
    + by apply IH.
    + right. exists (c :: a). split; [|done]. simpl. by rewrite Hc, Ha.
Qed.

Lemma find_after_SPACE s :
  match find_after (N.eqb SPACE) s with
  | None => str_contains SPACE s = false
  | Some r => ∃ a, s = a ++ SPACE :: r ∧ str_contains SPACE a = false
  end.
Proof.
  induction s as [|c s IH]; [done|]. simpl.
  destruct (SPACE =? c) eqn:E.
  - apply N.eqb_eq in E as <-. by exists [].
  - destruct (find_after (N.eqb SPACE) s) as [r|].
    + destruct IH as (a & -> & Ha). exists (c :: a). split; [done|]. simpl. by rewrite E.
    + simpl. by rewrite IH.
Qed.
End StripFacts.

Section TimeText.
Context (U : UCD).

(** The text handed to [strptime] in words: strip, take what follows
    the first space, strip. *)
Lemma split_portion s :
  (if str_contains SPACE s then index (split1 SPACE s) 1 else Ok s)
  = Ok (portion_after (N.eqb SPACE) s).
Proof.
  unfold portion_after. pose proof (find_after_SPACE s) as Hf.
  destruct (find_after (N.eqb SPACE) s) as [r|]; simpl.
  - destruct Hf as (a & -> & Ha). by rewrite contains_app, split1_app.
  - by rewrite Hf.
Qed.

Lemma time_text_words ts :
  time_text ts = Ok (strip (portion_after (N.eqb SPACE) (strip ts))).
Proof. unfold time_text. by rewrite split_portion. Qed.

(** [time_text] never raises: the index 1 is only taken when the
    separator is there. *)
Lemma time_text_total ts : ∃ text, time_text ts = Ok text.
Proof.
  unfold time_text. destruct (str_contains SPACE (strip ts)) eqn:E; [|eauto].
  assert (∃ x, index (split1 SPACE (strip ts)) 1 = Ok x) as [x ->]; [|eauto].
  induction (strip ts) as [|c s IH]; [done|].
  simpl in *. rewrite (N.eqb_sym c SPACE). destruct (SPACE =? c); simpl in *.
  - unfold index. simpl. eauto.
  - destruct (IH E) as [x Hx]. unfold index in *.
    destruct (split1 SPACE s) as [|p0 [|p1 ps]]; simpl in *; try done. eauto.
Qed.

(** When the part after the first space (or the whole string, if it
    has no space) is a nonempty text free of white space, it is
    the text [replace_date_part] parses. *)
Lemma time_text_portion ts :
  portion_after (N.eqb SPACE) ts ≠ [] →
  nonspace (portion_after (N.eqb SPACE) ts) →
  time_text ts = Ok (portion_after (N.eqb SPACE) ts).
Proof.
  unfold portion_after. pose proof (find_after_SPACE ts) as Hf.
  destruct (find_after (N.eqb SPACE) ts) as [r|]; simpl; intros Hne Hns.
  - destruct Hf as (a & -> & Ha). unfold time_text, strip.
    destruct (lstrip_before a r Ha Hne Hns) as [->|(a' & Ha' & ->)].
    + rewrite rstrip_nonspace by done.
      rewrite nonspace_no_SPACE by done.
      fold (strip r). by rewrite strip_nonspace.
    + rewrite rstrip_before by done.
      rewrite contains_app, split1_app by done. unfold index. simpl.
      fold (strip r). by rewrite strip_nonspace.
  - unfold time_text. rewrite strip_nonspace by done.
    rewrite nonspace_no_SPACE by done. by rewrite strip_nonspace.
Qed.
End TimeText.

(** *** What the two patterns match *)

Lemma rx_char_sound (p : N → bool) (P : pystr → Prop) :
  (∀ c, p c = true → P [c]) → rx_sound (rx_char p) P.
Proof.
  intros HP s m r. unfold rx_char. destruct s as [|c s]; [by intros ?%elem_of_nil|].
  destruct (p c) eqn:E; [|by intros ?%elem_of_nil].
  intros [= -> ->]%list_elem_of_singleton. split; [done|]. by apply HP.
Qed.

Lemma rx_seq_sound (a b : rx) (P Q R : pystr → Prop) :
  rx_sound a P → rx_sound b Q → (∀ m1 m2, P m1 → Q m2 → R (m1 ++ m2)) →
  rx_sound (rx_seq a b) R.
Proof.
  intros Ha Hb HR s m r. unfold rx_seq.
  intros ([m1 r1] & Hin & H1)%list_elem_of_bind.
  apply list_elem_of_bind in Hin as ([m2 r2] & Hin & H2).
  apply list_elem_of_singleton in Hin as [= -> ->].
  apply Ha in H1 as [-> HP]. apply Hb in H2 as [-> HQ].
  split; [by rewrite app_assoc|]. by apply HR.
Qed.

Lemma rx_alt_sound (a b : rx) (P : pystr → Prop) :
  rx_sound a P → rx_sound b P → rx_sound (rx_alt a b) P.
Proof.
  intros Ha Hb s m r. unfold rx_alt. intros [H|H]%elem_of_app; eauto.
Qed.

Section Patterns.
Context (U : UCD).

#[local] Abbreviation digits := (digits U).

Lemma digits_one c : is_Some (decimal U c) → digits [c].
Proof. intros Hc. split; [done|]. by repeat constructor. Qed.

Lemma digits_app g1 g2 : digits g1 → digits g2 → digits (g1 ++ g2).
Proof.
  intros [H1 F1] [H2 F2]. split.
  - destruct g1; [done|]. done.
  - by apply Forall_app.
Qed.

Lemma digits_ascii c : (48 <=? c) && (c <=? 57) = true → is_Some (decimal U c).
Proof.
  intros H. unfold decimal, ascii_decimal. rewrite H.
  bool_to_prop. assert ((c <? 128) = true) as -> by (apply N.ltb_lt; lia). eauto.
Qed.

Lemma rx_digit_sound : rx_sound (rx_digit (decimal U)) digits.
Proof. apply rx_char_sound. intros c Hc%bool_decide_eq_true. by apply digits_one. Qed.

Lemma rx_range_sound lo hi :
  48 ≤ lo → hi ≤ 57 → rx_sound (rx_range lo hi) digits.
Proof.
  intros Hlo Hhi. apply rx_char_sound. intros c Hc. apply digits_one, digits_ascii.
  bool_to_prop. apply andb_true_iff. split; apply N.leb_le; lia.
Qed.

Lemma rx_lit_digit_sound d : 48 ≤ d ≤ 57 → rx_sound (rx_lit d) digits.
Proof.
  intros Hd. apply rx_char_sound. intros c Hc. apply N.eqb_eq in Hc as <-.
  apply digits_one, digits_ascii. apply andb_true_iff. split; apply N.leb_le; lia.
Qed.

Lemma rx_colon_sound : rx_sound (rx_lit COLON) (λ m, m = [COLON]).
Proof. apply rx_char_sound. by intros c <-%N.eqb_eq. Qed.

Lemma re_H_sound : rx_sound (re_H (decimal U)) digits.
Proof.
  unfold re_H. repeat apply rx_alt_sound.
  - eapply rx_seq_sound; [apply rx_lit_digit_sound|apply rx_range_sound|apply digits_app]; lia.
  - eapply rx_seq_sound; [apply rx_range_sound|apply rx_digit_sound|apply digits_app]; lia.
  - apply rx_digit_sound.
Qed.

Lemma re_M_sound : rx_sound (re_M (decimal U)) digits.
Proof.
  unfold re_M. repeat apply rx_alt_sound.
  - eapply rx_seq_sound; [apply rx_range_sound|apply rx_digit_sound|apply digits_app]; lia.
  - apply rx_digit_sound.
Qed.

Lemma re_S_sound : rx_sound (re_S (decimal U)) digits.
Proof.
  unfold re_S. repeat apply rx_alt_sound.
  - eapply rx_seq_sound; [apply rx_lit_digit_sound|apply rx_range_sound|apply digits_app]; lia.
  - eapply rx_seq_sound; [apply rx_range_sound|apply rx_digit_sound|apply digits_app]; lia.
  - apply rx_digit_sound.
Qed.

Lemma paths_HM_sound s h m r :
  (h, m, r) ∈ paths_HM (decimal U) s →
  s = h ++ COLON :: m ++ r ∧ digits h ∧ digits m.
Proof.
  unfold paths_HM.
  intros ([h1 r1] & Hin & H1)%list_elem_of_bind.
  apply list_elem_of_bind in Hin as ([c2 r2] & Hin & H2).
  apply list_elem_of_bind in Hin as ([m3 r3] & Hin & H3).
  apply list_elem_of_singleton in Hin as [= -> -> ->].
  apply re_H_sound in H1 as [-> Hh]. apply rx_colon_sound in H2 as [-> ->].
  apply re_M_sound in H3 as [-> Hm]. done.
Qed.

Lemma paths_HMS_sound s h m x r :
  (h, m, x, r) ∈ paths_HMS (decimal U) s →
  s = h ++ COLON :: m ++ COLON :: x ++ r ∧ digits h ∧ digits m ∧ digits x.
Proof.
  unfold paths_HMS.
  intros ([h1 r1] & Hin & H1)%list_elem_of_bind.
  apply list_elem_of_bind in Hin as ([c2 r2] & Hin & H2).
  apply list_elem_of_bind in Hin as ([m3 r3] & Hin & H3).
  apply list_elem_of_bind in Hin as ([c4 r4] & Hin & H4).
  apply list_elem_of_bind in Hin as ([x5 r5] & Hin & H5).
  apply list_elem_of_singleton in Hin as [= -> -> -> ->].
  apply re_H_sound in H1 as [-> Hh]. apply rx_colon_sound in H2 as [-> ->].
  apply re_M_sound in H3 as [-> Hm]. apply rx_colon_sound in H4 as [-> ->].
  apply re_S_sound in H5 as [-> Hx]. done.
Qed.

Lemma digits_nonspace g : digits g → nonspace g.
Proof.
  intros [_ Hg]. eapply Forall_impl; [apply Hg|]. simpl. intros c Hc.
  destruct (py_isspace c) eqn:E; [|done].
  rewrite decimal_not_space in Hc by done. by destruct Hc.
Qed.

Lemma digits_no_colon g : digits g → COLON ∉ g.
Proof.
  intros [_ Hg] Hin. rewrite Forall_forall in Hg. apply Hg in Hin.
  by destruct Hin.
Qed.

(** The text before the first colon is determined. *)
Lemma first_colon_unique (h h' a b : pystr) :
  COLON ∉ h → COLON ∉ h' → h ++ COLON :: a = h' ++ COLON :: b → h = h' ∧ a = b.
Proof.
  revert h'. induction h as [|c h IH]; intros [|c' h'] Hh Hh' Heq; simpl in Heq.
  - by injection Heq.
  - injection Heq as <- _. destruct Hh'. left.
  - injection Heq as -> _. destruct Hh. left.
  - injection Heq as <- Heq. apply not_elem_of_cons in Hh as [_ Hh].
    apply not_elem_of_cons in Hh' as [_ Hh'].
    destruct (IH h' Hh Hh' Heq) as [-> ->]. done.
Qed.

Lemma strptime_HM_inv s t :
  strptime_HM (decimal U) s = Ok t →
  ∃ h m, s = h ++ COLON :: m ∧ digits h ∧ digits m
         ∧ hour t < 24 ∧ minute t < 60 ∧ second t = 0.
Proof.
  unfold strptime_HM, match_HM.
  destruct (head (paths_HM (decimal U) s)) as [[[h m] r]|] eqn:E; [|done].
  apply head_Some_elem_of, paths_HM_sound in E as (-> & Hh & Hm).
  destruct r; [|done]. rewrite app_nil_r.
  destruct (py_int (decimal U) h) as [hh|]; [|done].
  destruct (py_int (decimal U) m) as [mm|]; [|done].
  unfold mk_time. destruct ((hh <=? 23) && (mm <=? 59) && (0 <=? 59)) eqn:Hb; [|done].
  intros [= <-]. exists h, m. simpl. bool_to_prop. split_and!; try done; lia.
Qed.

Lemma strptime_HMS_inv s t :
  strptime_HMS (decimal U) s = Ok t →
  ∃ h m x, s = h ++ COLON :: m ++ COLON :: x ∧ digits h ∧ digits m ∧ digits x
           ∧ hour t < 24 ∧ minute t < 60 ∧ second t < 60.
Proof.
  unfold strptime_HMS, match_HMS.
  destruct (head (paths_HMS (decimal U) s)) as [[[[h m] x] r]|] eqn:E; [|done].
  apply head_Some_elem_of, paths_HMS_sound in E as (-> & Hh & Hm & Hx).
  destruct r; [|done]. rewrite app_nil_r.
  destruct (py_int (decimal U) h) as [hh|]; [|done].
  destruct (py_int (decimal U) m) as [mm|]; [|done].
  destruct (py_int (decimal U) x) as [xx|]; [|done].
  unfold mk_time. destruct ((hh <=? 23) && (mm <=? 59) && (xx <=? 59)) eqn:Hb; [|done].
  intros [= <-]. exists h, m, x. simpl. bool_to_prop. split_and!; try done; lia.
Qed.

(** [strptime] raises nothing but [ValueError]. *)
Lemma strptime_HMS_raises s e : strptime_HMS (decimal U) s = Raise e → e = ValueError.
Proof.
  unfold strptime_HMS, mk_time. repeat case_match; by intros [= <-].
Qed.

Lemma strptime_HM_raises s e : strptime_HM (decimal U) s = Raise e → e = ValueError.
Proof.
  unfold strptime_HM, mk_time. repeat case_match; by intros [= <-].
Qed.

(** A text that parses is not empty and has no white space. *)
Lemma parsed_HM_nonspace s t : strptime_HM (decimal U) s = Ok t → s ≠ [] ∧ nonspace s.
Proof.
  intros (h & m & -> & Hh & Hm & _)%strptime_HM_inv. split.
  - by destruct h.
  - apply Forall_app. split; [by apply digits_nonspace|].
    apply Forall_cons. split; [done|]. by apply digits_nonspace.
Qed.

Lemma parsed_HMS_nonspace s t : strptime_HMS (decimal U) s = Ok t → s ≠ [] ∧ nonspace s.
Proof.
  intros (h & m & x & -> & Hh & Hm & Hx & _)%strptime_HMS_inv. split.
  - by destruct h.
  - apply Forall_app. split; [by apply digits_nonspace|].
    apply Forall_cons. split; [done|].
    apply Forall_app. split; [by apply digits_nonspace|].
    apply Forall_cons. split; [done|]. by apply digits_nonspace.
Qed.

(** A text in the [%H:%M] format is not in the [%H:%M:%S] format: the
    first attempt of [replace_date_part] fails on it. *)
Lemma parsed_HM_not_HMS s t :
  strptime_HM (decimal U) s = Ok t → strptime_HMS (decimal U) s = Raise ValueError.
Proof.
  intros (h & m & -> & Hh & Hm & _)%strptime_HM_inv.
  unfold strptime_HMS, match_HMS.
  destruct (head (paths_HMS (decimal U) (h ++ COLON :: m))) as [[[[h' m'] x'] r']|] eqn:E;
    [|done].
  apply head_Some_elem_of, paths_HMS_sound in E as (Heq & Hh' & Hm' & Hx').
  apply first_colon_unique in Heq as [_ ->]; [|by apply digits_no_colon..].
  apply digits_no_colon in Hm. destruct Hm.
  apply elem_of_app. right. left.
Qed.
End Patterns.

(** *** Rendering and parsing again *)

Lemma elem_of_below (n : nat) (x : N) : x < N.of_nat n → In x (below n).
Proof.
  intros Hx. unfold below. apply list_elem_of_In, list_elem_of_fmap.
  exists (N.to_nat x). split; [by rewrite N2Nat.id|].
  apply elem_of_seq. lia.
Qed.

Section Roundtrip.
Context (U : UCD).

#[local] Abbreviation roundtrip_HMS_at := (roundtrip_HMS_at U).
#[local] Abbreviation roundtrip_HM_at := (roundtrip_HM_at U).

Lemma roundtrip_HMS_all :
  forallb (λ h, forallb (λ m, forallb (roundtrip_HMS_at h m) (below 60)) (below 60))
    (below 24) = true.
Proof. by vm_compute. Qed.

Lemma roundtrip_HM_all :
  forallb (λ h, forallb (roundtrip_HM_at h) (below 60)) (below 24) = true.
Proof. by vm_compute. Qed.

Lemma same_time_eq r h m x :
  same_time r h m x = true → r = Ok {| hour := h; minute := m; second := x |}.
Proof.
  destruct r as [[h' m' x']|]; [|done]. simpl. intros H. bool_to_prop. by subst.
Qed.

(** What [strftime] printed, [strptime] reads back. *)
Lemma roundtrip_HMS t :
  hour t < 24 → minute t < 60 → second t < 60 →
  strptime_HMS (decimal U) (strftime_HMS t) = Ok t.
Proof.
  destruct t as [h m x]. simpl. intros Hh Hm Hx.
  pose proof roundtrip_HMS_all as Hall. rewrite forallb_forall in Hall.
  specialize (Hall h (elem_of_below 24 h Hh)). rewrite forallb_forall in Hall.
  specialize (Hall m (elem_of_below 60 m Hm)). rewrite forallb_forall in Hall.
  specialize (Hall x (elem_of_below 60 x Hx)). by apply same_time_eq in Hall.
Qed.

Lemma roundtrip_HM t :
  hour t < 24 → minute t < 60 → second t = 0 →
  strptime_HM (decimal U) (strftime_HM t) = Ok t.
Proof.
  destruct t as [h m x]. simpl. intros Hh Hm ->.
  pose proof roundtrip_HM_all as Hall. rewrite forallb_forall in Hall.
  specialize (Hall h (elem_of_below 24 h Hh)). rewrite forallb_forall in Hall.
  specialize (Hall m (elem_of_below 60 m Hm)). by apply same_time_eq in Hall.
Qed.
End Roundtrip.

(** *** The projection *)

Section Projection.
Context (U : UCD).

Lemma project_HMS ts to_date t :
  strptime_HMS (decimal U) (portion_after (N.eqb SPACE) ts) = Ok t →
  replace_date_part U ts to_date = Ok (to_date ++ [SPACE] ++ strftime_HMS t).
Proof.
  intros Ht. destruct (parsed_HMS_nonspace U _ _ Ht) as [Hne Hns].
  unfold replace_date_part. rewrite time_text_portion by done.
  unfold render_time. by rewrite Ht.
Qed.

Lemma project_HM ts to_date t :
  strptime_HM (decimal U) (portion_after (N.eqb SPACE) ts) = Ok t →
  replace_date_part U ts to_date = Ok (to_date ++ [SPACE] ++ strftime_HM t).
Proof.
  intros Ht. destruct (parsed_HM_nonspace U _ _ Ht) as [Hne Hns].
  unfold replace_date_part. rewrite time_text_portion by done.
  unfold render_time. rewrite (parsed_HM_not_HMS U _ _ Ht). simpl. by rewrite Ht.
Qed.

(** The two ways [render_time] returns. *)
Lemma render_time_inv text t_str :
  render_time U text = Ok t_str →
  (∃ t, strptime_HMS (decimal U) text = Ok t ∧ t_str = strftime_HMS t)
  ∨ (∃ t, strptime_HM (decimal U) text = Ok t ∧ t_str = strftime_HM t).
Proof.
  unfold render_time.
  destruct (strptime_HMS (decimal U) text) as [t|e] eqn:E1; simpl.
  - intros [= <-]. left. eauto.
  - apply strptime_HMS_raises in E1 as ->. simpl.
    destruct (strptime_HM (decimal U) text) as [t|e] eqn:E2; [|done].
    intros [= <-]. right. eauto.
Qed.

(** When both attempts fail, [render_time] raises [ValueError]. *)
Lemma render_time_fails text :
  (∀ t, strptime_HMS (decimal U) text ≠ Ok t) →
  (∀ t, strptime_HM (decimal U) text ≠ Ok t) →
  render_time U text = Raise ValueError.
Proof.
  intros H1 H2. unfold render_time.
  destruct (strptime_HMS (decimal U) text) as [t|e] eqn:E1; [by destruct (H1 t)|].
  apply strptime_HMS_raises in E1 as ->. simpl.
  destruct (strptime_HM (decimal U) text) as [t|e] eqn:E2; [by destruct (H2 t)|].
  by apply strptime_HM_raises in E2 as ->.
Qed.

Lemma portion_after_app (d r : pystr) :
  str_contains SPACE d = false → portion_after (N.eqb SPACE) (d ++ SPACE :: r) = r.
Proof.
  intros Hd. unfold portion_after.
  assert (find_after (N.eqb SPACE) (d ++ SPACE :: r) = Some r) as ->; [|done].
  unfold str_contains in Hd. induction d as [|c d IH]; [done|].
  simpl in *. apply orb_false_iff in Hd as [Hc Hd]. rewrite Hc. by apply IH.
Qed.

Lemma iso_date_no_space (d : pystr) : is_iso_date d = true → str_contains SPACE d = false.
Proof.
  assert (∀ c, is_ascii_digit c = true → (SPACE =? c) = false) as Hdig.
  { intros c Hc. unfold is_ascii_digit in Hc. bool_to_prop. apply N.eqb_neq.
    unfold SPACE. lia. }
  assert (∀ c, (c =? HYPHEN) = true → (SPACE =? c) = false) as Hhyp.
  { intros c Hc. by apply N.eqb_eq in Hc as ->. }
  unfold is_iso_date. do 11 (destruct d as [|? d]; try done).
  intros H. cbn [forallb] in H.
  repeat match goal with
         | H : (_ && _) = true |- _ => apply andb_true_iff in H as [? ?]
         end.
  unfold str_contains. cbn [existsb].
  repeat first [rewrite Hdig by done | rewrite Hhyp by done]. done.
Qed.

(** Projecting the result of a projection: only the time text matters. *)
Lemma reproject (T d1 d2 r : pystr) :
  str_contains SPACE d1 = false →
  replace_date_part U T d1 = Ok r →
  replace_date_part U r d2 = replace_date_part U T d2.
Proof.
  intros Hd1. unfold replace_date_part at 1 3.
  destruct (time_text T) as [text|e]; [|done].
  destruct (render_time U text) as [t_str|e] eqn:Er; [|done].
  intros [= <-]. change (d1 ++ [SPACE] ++ t_str) with (d1 ++ SPACE :: t_str).
  apply render_time_inv in Er as [(t & Ht & ->)|(t & Ht & ->)].
  - apply strptime_HMS_inv in Ht as (_ & _ & _ & _ & _ & _ & _ & Hh & Hm & Hx).
    apply project_HMS. rewrite portion_after_app by done. by apply roundtrip_HMS.
  - apply strptime_HM_inv in Ht as (_ & _ & _ & _ & _ & Hh & Hm & Hx).
    apply project_HM. rewrite portion_after_app by done. by apply roundtrip_HM.
Qed.
End Projection.

(** C1 (amended): when the part of the template after its first space
    (U+0020), or the whole template if it has no space, is in the format
    [%H:%M:%S], the projection is the target date, one space and the
    time with its seconds field, eight characters, also when the seconds
    are zero; when it is in the format [%H:%M], the projection is the
    target date, one space and the time without a seconds field, five
    characters.  The two scenarios of the specification hold. *)
Theorem projection_keeps_precision (U : UCD) :
  (∀ ts to_date t,
     strptime_HMS (decimal U) (portion_after (N.eqb SPACE) ts) = Ok t →
     replace_date_part U ts to_date = Ok (to_date ++ [SPACE] ++ strftime_HMS t)
     ∧ length (strftime_HMS t) = 8%nat)
  ∧ (∀ ts to_date t,
     strptime_HM (decimal U) (portion_after (N.eqb SPACE) ts) = Ok t →
     replace_date_part U ts to_date = Ok (to_date ++ [SPACE] ++ strftime_HM t)
     ∧ length (strftime_HM t) = 5%nat)
  ∧ replace_date_part U (lit "2024-08-06 08:00") (lit "2025-01-01")
    = Ok (lit "2025-01-01 08:00")
  ∧ replace_date_part U (lit "2024-08-06 08:00:30") (lit "2025-01-01")
    = Ok (lit "2025-01-01 08:00:30")
  ∧ replace_date_part U (lit "2024-08-06 08:00:00") (lit "2025-01-01")
    = Ok (lit "2025-01-01 08:00:00").
Proof.
  split_and!.
  - intros ts to_date t Ht. split; [by apply project_HMS|done].
  - intros ts to_date t Ht. split; [by apply project_HM|done].
  - by vm_compute.
  - by vm_compute.
  - by vm_compute.
Qed.

Lemma projection_keeps_precision_witness :
  replace_date_part ucd_latin (lit "2024-08-06 8:05:00") (lit "2025-01-01")
  = Ok (lit "2025-01-01 08:05:00").
Proof.
  apply (proj1 (proj1 (projection_keeps_precision ucd_latin)
                  (lit "2024-08-06 8:05:00") (lit "2025-01-01")
                  {| hour := 8; minute := 5; second := 0 |} eq_refl)).
Defined.

(** C1 as the specification words it fails: the template is split at
    the first space, not at the first white space.  With a tab between
    date and time, the part after the first white space is a valid
    [%H:%M] time, and the projection raises. *)
Lemma projection_tab_counterexample :
  py_isspace 9 = true
  ∧ portion_after py_isspace ts_tab = lit "08:00"
  ∧ strptime_HM (decimal ucd_latin) (portion_after py_isspace ts_tab)
    = Ok {| hour := 8; minute := 0; second := 0 |}
  ∧ replace_date_part ucd_latin ts_tab (lit "2025-01-01") = Raise ValueError.
Proof. split_and!; by vm_compute. Qed.

(** C5: for a template [T] that projects onto the date [D1], projecting
    the result onto [D2] gives what projecting [T] onto [D2] gives. *)
Theorem reprojection (U : UCD) (T D1 D2 r : pystr) :
  is_iso_date D1 = true →
  replace_date_part U T D1 = Ok r →
  replace_date_part U r D2 = replace_date_part U T D2.
Proof.
  intros HD1. apply reproject. by apply iso_date_no_space.
Qed.

Lemma reprojection_witness :
  replace_date_part ucd_latin (lit "2025-01-01 08:00") (lit "2026-02-02")
  = replace_date_part ucd_latin (lit "2024-08-06 08:00") (lit "2026-02-02").
Proof.
  apply (reprojection ucd_latin (lit "2024-08-06 08:00") (lit "2025-01-01")
           (lit "2026-02-02") (lit "2025-01-01 08:00")).
  - reflexivity.
  - reflexivity.
Defined.

(** * Further properties of the code *)

(** ** Schedules of the fan-out *)


Lemma state_eq (s1 s2 : state) :
  heap s1 = heap s2 → listeners s1 = listeners s2 → s1 = s2.
Proof. destruct s1, s2. simpl. by intros -> ->. Qed.

Lemma broadcast_no_listeners ev st : listeners st = ∅ → broadcast ev st = st.
Proof.
  intros He. unfold broadcast, broadcast_ops. rewrite He, elements_empty. simpl.
  by apply state_eq.
Qed.

(** X1: publishing while no listener is registered changes nothing: the
    state after any number of [broadcast] calls is the state before, and
    no stream yields anything. *)
Theorem publish_without_listeners (evs : list event) (st : state) :
  listeners st = ∅ →
  run (Publish <$> evs) st = (st, []).
Proof.
  intros He. induction evs as [|ev evs IH]; [done|].
  rewrite fmap_cons. cbn [run step]. rewrite broadcast_no_listeners by done.
  by rewrite IH.
Qed.

Lemma publish_without_listeners_witness :
  run (Publish <$> [ev0; ev1; ev2]) st_init = (st_init, []).
Proof. apply (publish_without_listeners [ev0; ev1; ev2] st_init). reflexivity. Defined.

Lemma within_capacity_step a st :
  within_capacity st → within_capacity (step a st).1.
Proof.
  intros Hst q o. destruct a as [ev|p| |p]; simpl.
  - rewrite broadcast_heap. destruct (decide (q ∈ listeners st)); [|by apply Hst].
    destruct (heap st !! q) as [o0|] eqn:E; [|done]. simpl.
    destruct (Hst q o0 E) as [Hm Hl].
    destruct (decide (is_full o0)) as [Hf|Hf]; simpl; intros [= <-]; [done|].
    simpl. split; [done|]. rewrite length_app. simpl.
    unfold is_full in Hf. rewrite Hm in Hf. lia.
  - unfold sse_next. destruct (heap st !! p) as [op|] eqn:E; [|by apply Hst].
    unfold get. destruct (items op) as [|e r] eqn:Ei; [by apply Hst|]. simpl.
    destruct (decide (q = p)) as [->|Hne].
    + rewrite lookup_insert_eq. intros [= <-]. simpl.
      destruct (Hst p op E) as [Hm Hl]. rewrite Ei in Hl. simpl in Hl. split; [done|lia].
    + rewrite lookup_insert_ne by done. apply Hst.
  - destruct (decide (q = fresh (dom (heap st)))) as [->|Hne].
    + rewrite lookup_insert_eq. intros [= <-]. simpl. split; [done|lia].
    + rewrite lookup_insert_ne by done. apply Hst.
  - apply Hst.
Qed.

Lemma wf_step a st : wf st → wf (step a st).1.
Proof.
  intros Hwf. destruct a as [ev|p| |p]; simpl.
  - by apply wf_broadcast.
  - unfold sse_next. destruct (heap st !! p) as [op|] eqn:E; [|done].
    destruct (get op) as [[e o']|]; [|done]. simpl.
    unfold wf in *. simpl. intros q Hq. apply Hwf in Hq.
    rewrite dom_insert. apply elem_of_union. by right.
  - unfold wf in *. simpl. intros q Hq. rewrite dom_insert.
    apply elem_of_union in Hq as [Hq|Hq]; apply elem_of_union; [by left|].
    right. by apply Hwf.
  - unfold wf in *. simpl. intros q Hq. apply elem_of_difference in Hq as [Hq _].
    by apply Hwf.
Qed.

(** X2: whatever the requests served since the process started, every
    reference in [listeners] points to a queue, and every queue has
    capacity 1000 and holds at most 1000 events. *)
Theorem queues_stay_bounded (acts : list action) :
  wf (run acts st_init).1 ∧ within_capacity (run acts st_init).1.
Proof.
  assert (wf st_init ∧ within_capacity st_init) as Hinit.
  { split.
    - intros q Hq. simpl in Hq. by apply elem_of_empty in Hq.
    - intros q o H. simpl in H. by rewrite lookup_empty in H. }
  revert Hinit. generalize st_init. induction acts as [|a acts IH]; intros st [Hw Hc].
  - done.
  - simpl. pose proof (wf_step a st Hw) as Hw1.
    pose proof (within_capacity_step a st Hc) as Hc1.
    destruct (step a st) as [st1 out1]. simpl in *.
    specialize (IH st1 (conj Hw1 Hc1)). by destruct (run acts st1).
Qed.

Lemma in_step_step q a v rec0 pubs0 :
  in_step rec0 v pubs0 →
  in_step (rec0 ++ (view_step q a v).2) (view_step q a v).1 (pubs0 ++ published [a]).
Proof.
  unfold in_step. intros [Hpre Heq]. destruct v as [[m its] r]. simpl in *.
  destruct a as [ev|p| |p]; simpl.
  - destruct r; simpl.
    + specialize (Heq eq_refl).
      destruct (decide (is_full _)) as [Hf|Hf]; simpl; rewrite ?app_nil_r.
      * split; [|done]. by apply prefix_app_r.
      * rewrite app_assoc, Heq. done.
    + rewrite ?app_nil_r. split; [|done]. by apply prefix_app_r.
  - destruct (decide (p = q)) as [->|Hne]; simpl.
    + unfold get. simpl. destruct its as [|e its]; simpl; rewrite ?app_nil_r in *.
      * done.
      * rewrite <- !app_assoc. done.
    + rewrite ?app_nil_r. done.
  - rewrite ?app_nil_r. done.
  - destruct (decide (p = q)) as [->|Hne]; simpl; rewrite ?app_nil_r; done.
Qed.

Lemma published_cons a acts : published (a :: acts) = published [a] ++ published acts.
Proof. unfold published. simpl. by destruct a. Qed.

Lemma in_step_run q acts : ∀ v rec0 pubs0,
  in_step rec0 v pubs0 →
  in_step (rec0 ++ (view_run q acts v).2) (view_run q acts v).1 (pubs0 ++ published acts).
Proof.
  induction acts as [|a acts IH]; intros v rec0 pubs0 Hin.
  - simpl. by rewrite !app_nil_r.
  - pose proof (in_step_step q a v rec0 pubs0 Hin) as H1.
    rewrite published_cons, app_assoc. simpl.
    destruct (view_step q a v) as [v1 out1]. simpl in H1.
    specialize (IH v1 _ _ H1).
    destruct (view_run q acts v1) as [v2 out2]. simpl in *.
    by rewrite app_assoc.
Qed.

(** X3: under every schedule (reads, overflows and closes included), what
    a listener registered with an empty queue was handed, followed by
    what is pending in its queue, is a prefix of the published events:
    nothing is reordered, duplicated or skipped, and after the first
    event it misses it gets none of the later ones. *)
Theorem delivered_is_prefix (st : state) (q : nat) (cap : Z) (acts : list action) :
  q ∈ listeners st →
  heap st !! q = Some (Queue_new cap) →
  received q (run acts st).2 ++ pending q (run acts st).1 `prefix_of` published acts.
Proof.
  intros Hq Ho.
  set (v := {| v_queue := Queue_new cap; v_reg := true |}).
  assert (view_of q st = Some v) as Hv.
  { apply view_of_Some. split; [done|]. symmetry. by apply bool_decide_eq_true. }
  destruct (run_view q acts st v Hv) as [Hv' Hout].
  rewrite Hout, (pending_view _ _ _ Hv').
  assert (in_step [] v []) as Hin by (split; done).
  by destruct (in_step_run q acts v [] [] Hin) as [Hpre _].
Qed.

Lemma delivered_is_prefix_witness :
  received 0 (run schedule1 st_one).2 ++ pending 0 (run schedule1 st_one).1
  `prefix_of` published schedule1.
Proof.
  apply (delivered_is_prefix st_one 0 1000 schedule1).
  - apply (bool_decide_unpack _). by vm_compute.
  - reflexivity.
Defined.

Lemma closed_step q a v :
  v_reg v = false →
  v_reg (view_step q a v).1 = false
  ∧ (view_step q a v).2 ++ items (v_queue (view_step q a v).1) = items (v_queue v).
Proof.
  destruct v as [[m its] r]. simpl. intros ->.
  destruct a as [ev|p| |p]; simpl; try done.
  - destruct (decide (p = q)); simpl; [|done]. unfold get. simpl. by destruct its.
  - by destruct (decide (p = q)).
Qed.

Lemma closed_run q acts : ∀ v,
  v_reg v = false →
  v_reg (view_run q acts v).1 = false
  ∧ (view_run q acts v).2 ++ items (v_queue (view_run q acts v).1) = items (v_queue v).
Proof.
  induction acts as [|a acts IH]; intros v Hv; [done|].
  simpl. destruct (closed_step q a v Hv) as [H1 H2].
  destruct (view_step q a v) as [v1 out1]. simpl in *.
  destruct (IH v1 H1) as [H3 H4].
  destruct (view_run q acts v1) as [v2 out2]. simpl in *.
  split; [done|]. by rewrite <- app_assoc, H4.
Qed.

(** X4: a queue that is not in [listeners] is never written again and
    never registered again: under every schedule, what its stream
    yields followed by what is still pending is what was pending
    before. *)
Theorem unregistered_gets_nothing (st : state) (q : nat) (o : Queue) (acts : list action) :
  q ∉ listeners st →
  heap st !! q = Some o →
  received q (run acts st).2 ++ pending q (run acts st).1 = items o
  ∧ q ∉ listeners (run acts st).1.
Proof.
  intros Hq Ho.
  set (v := {| v_queue := o; v_reg := false |}).
  assert (view_of q st = Some v) as Hv.
  { apply view_of_Some. split; [done|]. symmetry. by apply bool_decide_eq_false. }
  destruct (run_view q acts st v Hv) as [Hv' Hout].
  destruct (closed_run q acts v eq_refl) as [Hreg Hits].
  rewrite Hout, (pending_view _ _ _ Hv'). split; [done|].
  rewrite (listeners_view _ _ _ Hv'), Hreg. done.
Qed.

Lemma unregistered_gets_nothing_witness :
  received 0 (run [Publish ev2; Next 0%nat; Open; Publish ev0] st_closed).2
  ++ pending 0 (run [Publish ev2; Next 0%nat; Open; Publish ev0] st_closed).1
  = [ev0; ev1]
  ∧ 0%nat ∉ listeners (run [Publish ev2; Next 0%nat; Open; Publish ev0] st_closed).1.
Proof.
  apply (unregistered_gets_nothing st_closed 0 {| maxsize := 1000; items := [ev0; ev1] |}).
  - apply (bool_decide_unpack _). by vm_compute.
  - by vm_compute.
Defined.

(** ** The status write *)

Lemma insert_or_replace_elem row rows r :
  r ∈ insert_or_replace row rows ↔ r = row ∨ (r ∈ rows ∧ ¬ same_key r row).
Proof.
  unfold insert_or_replace.
  rewrite elem_of_app, list_elem_of_filter, list_elem_of_singleton. tauto.
Qed.

Lemma filter_filter_implied {A} (P Q : A → Prop) `{∀ x, Decision (P x), ∀ x, Decision (Q x)}
    (l : list A) :
  (∀ x, P x → Q x) → filter P (filter Q l) = filter P l.
Proof.
  intros HPQ. induction l as [|x l IH]; [done|].
  rewrite (filter_cons Q). destruct (decide (Q x)) as [Hq|Hq].
  - rewrite !filter_cons. destruct (decide (P x)); by rewrite IH.
  - rewrite IH. rewrite filter_cons_False; [done|]. intros Hp. by apply Hq, HPQ.
Qed.

Lemma filter_filter_excluded {A} (P Q : A → Prop) `{∀ x, Decision (P x), ∀ x, Decision (Q x)}
    (l : list A) :
  (∀ x, P x → ¬ Q x) → filter P (filter Q l) = [].
Proof.
  intros HPQ. induction l as [|x l IH]; [done|].
  rewrite (filter_cons Q). destruct (decide (Q x)) as [Hq|Hq]; [|done].
  rewrite filter_cons_False; [done|]. intros Hp. by apply (HPQ x).
Qed.

(** The rows that [LEFT JOIN] finds for a task after the upsert. *)
Lemma join_after_upsert date t row rows :
  filter (join_on date t) (insert_or_replace row rows)
  = if decide (join_on date t row) then [row] else filter (join_on date t) rows.
Proof.
  unfold insert_or_replace. rewrite filter_app.
  destruct (decide (join_on date t row)) as [Hj|Hj].
  - rewrite filter_filter_excluded.
    + by rewrite filter_cons_True.
    + intros x [Hx1 Hx2] Hn. apply Hn. destruct Hj as [Hj1 Hj2].
      split; congruence.
  - rewrite filter_filter_implied.
    + rewrite filter_cons_False by done. by rewrite app_nil_r.
    + intros x [Hx1 Hx2] [Hk1 Hk2]. apply Hj. split; congruence.
Qed.

Lemma left_join_ext date ts ss ss' :
  (∀ t, t ∈ ts → filter (join_on date t) ss = filter (join_on date t) ss') →
  left_join date ts ss = left_join date ts ss'.
Proof.
  unfold left_join. induction ts as [|t ts IH]; intros Hf; [done|].
  rewrite !bind_cons. rewrite (Hf t) by left. f_equal. apply IH.
  intros t' Ht'. apply Hf. by right.
Qed.

Lemma py_bool_flag x : py_bool (flag x) = x.
Proof. by destruct x. Qed.

(** What a call that answers [{"ok": True}] did. *)
Lemma post_ok_inv json today now_ms w :
  (api_state_post json today now_ms w).1 = PostOk →
  ∃ task_id t,
    b_task_id (default empty_body json) = Some task_id ∧ (task_id ≠ 0 ∧ sqlite_int task_id)%Z
    ∧ t ∈ tasks (w_db w) ∧ t_id t = task_id
    ∧ (api_state_post json today now_ms w).2
      = {| w_db := {| tasks := tasks (w_db w);
                      task_state :=
                        insert_or_replace
                          {| s_date := str_or (b_date (default empty_body json)) today;
                             s_task_id := task_id;
                             s_completed := flag (b_completed (default empty_body json));
                             s_reviewed := flag (b_reviewed (default empty_body json)) |}
                          (task_state (w_db w)) |};
           w_sse := broadcast
                      (event_of (str_or (b_date (default empty_body json)) today) task_id
                         (b_completed (default empty_body json))
                         (b_reviewed (default empty_body json)) now_ms)
                      (w_sse w) |}.
Proof.
  unfold api_state_post. set (data := default empty_body json).
  destruct (b_task_id data) as [task_id|]; [|done].
  destruct (task_id =? 0)%Z eqn:E0; [done|]. apply Z.eqb_neq in E0.
  destruct (decide (sqlite_int task_id)) as [Hfit|]; [|done].
  destruct (filter (λ t, t_id t = task_id) (tasks (w_db w))) as [|t l] eqn:Ef; [done|].
  intros _. exists task_id, t. split_and!; try done.
  - assert (t ∈ filter (λ t, t_id t = task_id) (tasks (w_db w))) as Ht by (rewrite Ef; left).
    by apply list_elem_of_filter in Ht as [_ ?].
  - assert (t ∈ filter (λ t, t_id t = task_id) (tasks (w_db w))) as Ht by (rewrite Ef; left).
    by apply list_elem_of_filter in Ht as [? _].
Qed.

Lemma post_refused_same json today now_ms w :
  (api_state_post json today now_ms w).1 ≠ PostOk →
  (api_state_post json today now_ms w).2 = w.
Proof.
  unfold api_state_post.
  destruct (b_task_id (default empty_body json)) as [task_id|]; [|done].
  destruct (task_id =? 0)%Z; [done|].
  destruct (decide (sqlite_int task_id)); [|done].
  by destruct (filter (λ t, t_id t = task_id) (tasks (w_db w))).
Qed.


(** X6: after a write that is accepted, the status read for the same
    date reports the task, and every entry it reports for the task
    carries the truth values that were written, whatever the table
    held before. *)
Theorem post_then_get (U : UCD) (json : option post_body) (today : pystr) (now_ms : Z)
    (w : world) (task_id : Z) :
  let data := default empty_body json in
  let w' := (api_state_post json today now_ms w).2 in
  let r := api_state_get U (w_db w') (b_date data) today in
  (api_state_post json today now_ms w).1 = PostOk →
  b_task_id data = Some task_id →
  (∃ e, e ∈ r_list r ∧ e_id e = task_id)
  ∧ (∀ e, e ∈ r_list r → e_id e = task_id →
          e_completed e = b_completed data ∧ e_reviewed e = b_reviewed data).
Proof.
  intros data w' r Hok Hid.
  destruct (post_ok_inv json today now_ms w Hok)
    as (id & t & Hid' & [Hne Hfit] & Ht & Htid & Hw).
  fold data in Hid', Hw. rewrite Hid in Hid'. injection Hid' as <-.
  subst r w'. rewrite Hw. simpl.
  set (date := str_or (b_date data) today).
  set (row := {| s_date := date; s_task_id := task_id;
                 s_completed := flag (b_completed data);
                 s_reviewed := flag (b_reviewed data) |}).
  assert (∀ t', t_id t' = task_id →
                filter (join_on date t') (insert_or_replace row (task_state (w_db w))) = [row])
    as Hrow.
  { intros t' Ht'. rewrite join_after_upsert. by rewrite decide_True. }
  split.
  - exists (to_entry (select_row (t, Some row))). split; [|done].
    apply list_elem_of_fmap_2, query_state_elem. exists t, (Some row). split; [|done].
    apply left_join_elem. simpl. split; [done|]. split; [|done].
    apply insert_or_replace_elem. by left.
  - intros e He Heid.
    apply list_elem_of_fmap in He as (f & -> & Hf).
    apply query_state_elem in Hf as (t' & o & Hin & ->).
    apply left_join_elem in Hin as [Ht' Ho]. simpl in *.
    destruct o as [s|].
    + destruct Ho as [Hs Hj].
      assert (s ∈ filter (join_on date t') (insert_or_replace row (task_state (w_db w))))
        as Hsf by (by apply list_elem_of_filter).
      rewrite Hrow in Hsf by done. apply list_elem_of_singleton in Hsf as ->.
      simpl. by rewrite !py_bool_flag.
    + by rewrite Hrow in Ho.
Qed.

Lemma post_then_get_witness :
  let w' := (api_state_post (Some body_done_3) (lit "2024-08-06") 1000 w_seed).2 in
  let r := api_state_get ucd_latin (w_db w') (Some (lit "2025-01-01")) (lit "2024-08-06") in
  (∃ e, e ∈ r_list r ∧ e_id e = 3%Z)
  ∧ (∀ e, e ∈ r_list r → e_id e = 3%Z → e_completed e = true ∧ e_reviewed e = false).
Proof.
  apply (post_then_get ucd_latin (Some body_done_3) (lit "2024-08-06") 1000 w_seed 3).
  - reflexivity.
  - reflexivity.
Defined.

(** X7: a write leaves every other status alone: the status read for a
    different date answers as before, and for the date written the
    entries of the other tasks are those of before. *)
Theorem post_touches_one_status (U : UCD) (json : option post_body) (today : pystr)
    (now_ms : Z) (w : world) (task_id : Z) (arg : option pystr) (today' : pystr) :
  let data := default empty_body json in
  let w' := (api_state_post json today now_ms w).2 in
  b_task_id data = Some task_id →
  (str_or arg today' ≠ str_or (b_date data) today →
   api_state_get U (w_db w') arg today' = api_state_get U (w_db w) arg today')
  ∧ (∀ e, e_id e ≠ task_id →
          (e ∈ r_list (api_state_get U (w_db w') arg today')
           ↔ e ∈ r_list (api_state_get U (w_db w) arg today'))).
Proof.
  intros data w' Hid.
  destruct ((api_state_post json today now_ms w).1) eqn:Hresp.
  2,3,4: (assert (w' = w) as ->; [|done]);
         apply post_refused_same; by rewrite Hresp.
  destruct (post_ok_inv json today now_ms w Hresp)
    as (id & t & Hid' & [Hne Hfit] & Ht & Htid & Hw).
  fold data in Hid', Hw. rewrite Hid in Hid'. injection Hid' as <-.
  subst w'. rewrite Hw. clear Hw.
  set (date := str_or (b_date data) today).
  set (row := {| s_date := date; s_task_id := task_id;
                 s_completed := flag (b_completed data);
                 s_reviewed := flag (b_reviewed data) |}).
  split.
  - intros Hdate. unfold api_state_get, query_state. simpl.
    rewrite (left_join_ext _ _ _ (task_state (w_db w))); [done|].
    intros t' _. rewrite join_after_upsert. rewrite decide_False; [done|].
    intros [_ Hd]. simpl in Hd. by destruct Hdate.
  - intros e He. unfold api_state_get. simpl.
    rewrite !list_elem_of_fmap.
    assert (∀ f, e = to_entry f →
                 (f ∈ query_state {| tasks := tasks (w_db w);
                                     task_state := insert_or_replace row (task_state (w_db w)) |}
                        (str_or arg today')
                  ↔ f ∈ query_state (w_db w) (str_or arg today'))) as Hiff.
    { intros f ->. rewrite !query_state_elem. simpl.
      assert (∀ t' o, f = select_row (t', o) →
                      ((t', o) ∈ left_join (str_or arg today') (tasks (w_db w))
                                  (insert_or_replace row (task_state (w_db w)))
                       ↔ (t', o) ∈ left_join (str_or arg today') (tasks (w_db w))
                                    (task_state (w_db w)))) as Hl.
      { intros t' o ->. rewrite !left_join_elem.
        assert (filter (join_on (str_or arg today') t')
                  (insert_or_replace row (task_state (w_db w)))
                = filter (join_on (str_or arg today') t') (task_state (w_db w))) as Hfl.
        { rewrite join_after_upsert. rewrite decide_False; [done|].
          intros [Hk _]. simpl in Hk. apply He. by destruct o. }
        destruct o as [s|].
        - assert (∀ ss : list state_row, (s ∈ ss ∧ join_on (str_or arg today') t' s)
                        ↔ s ∈ filter (join_on (str_or arg today') t') ss) as Hfs.
          { intros ss. rewrite list_elem_of_filter. tauto. }
          by rewrite !Hfs, Hfl.
        - by rewrite Hfl. }
      split; intros (t' & o & Hin & Hf); exists t', o; (split; [|done]); by apply (Hl t' o Hf). }
    split; intros (f & Hf & Hin); exists f; (split; [done|]); by apply (Hiff f Hf).
Qed.

Lemma post_touches_one_status_witness :
  let w' := (api_state_post (Some body_done_3) (lit "2024-08-06") 1000 w_seed).2 in
  (str_or (Some (lit "2024-08-06")) (lit "2024-08-06") ≠ str_or (Some (lit "2025-01-01")) (lit "2024-08-06") →
   api_state_get ucd_latin (w_db w') (Some (lit "2024-08-06")) (lit "2024-08-06")
   = api_state_get ucd_latin (w_db w_seed) (Some (lit "2024-08-06")) (lit "2024-08-06"))
  ∧ (∀ e, e_id e ≠ 3%Z →
          (e ∈ r_list (api_state_get ucd_latin (w_db w') (Some (lit "2024-08-06"))
                         (lit "2024-08-06"))
           ↔ e ∈ r_list (api_state_get ucd_latin (w_db w_seed) (Some (lit "2024-08-06"))
                           (lit "2024-08-06")))).
Proof.
  apply (post_touches_one_status ucd_latin (Some body_done_3) (lit "2024-08-06") 1000 w_seed 3
           (Some (lit "2024-08-06")) (lit "2024-08-06")).
  reflexivity.
Defined.

(** X8: a write that is accepted hands the same event to every
    registered listener whose queue has room: the date written, one
    change with the task id and the two flags as 0 or 1, and the clock
    reading; it lands behind what was pending and the listener stays
    registered. *)
Theorem post_publishes (json : option post_body) (today : pystr) (now_ms : Z) (w : world)
    (task_id : Z) (q : nat) (o : Queue) :
  let data := default empty_body json in
  let w' := (api_state_post json today now_ms w).2 in
  (api_state_post json today now_ms w).1 = PostOk →
  b_task_id data = Some task_id →
  q ∈ listeners (w_sse w) →
  heap (w_sse w) !! q = Some o →
  ¬ is_full o →
  heap (w_sse w') !! q
  = Some {| maxsize := maxsize o;
            items := items o ++ [event_of (str_or (b_date data) today) task_id
                                   (b_completed data) (b_reviewed data) now_ms] |}
  ∧ q ∈ listeners (w_sse w').
Proof.
  intros data w' Hok Hid Hq Ho Hroom.
  destruct (post_ok_inv json today now_ms w Hok)
    as (id & t & Hid' & [Hne Hfit] & Ht & Htid & Hw).
  fold data in Hid', Hw. rewrite Hid in Hid'. injection Hid' as <-.
  subst w'. rewrite Hw. simpl.
  by apply (broadcast_slot _ (w_sse w) q o Hq Ho).
Qed.

Lemma post_publishes_witness :
  let w' := (api_state_post (Some body_done_3) (lit "2024-08-06") 1000 w_seed).2 in
  heap (w_sse w') !! 0%nat
  = Some {| maxsize := maxsize (Queue_new 1000);
            items := items (Queue_new 1000)
                     ++ [event_of (str_or (Some (lit "2025-01-01")) (lit "2024-08-06")) 3
                           true false 1000] |}
  ∧ 0%nat ∈ listeners (w_sse w').
Proof.
  apply (post_publishes (Some body_done_3) (lit "2024-08-06") 1000 w_seed 3 0 (Queue_new 1000)).
  - reflexivity.
  - reflexivity.
  - apply (bool_decide_unpack _). by vm_compute.
  - reflexivity.
  - intros [_ Hle]. simpl in Hle. lia.
Defined.

Lemma key_unique_upsert row rows :
  key_unique rows → key_unique (insert_or_replace row rows).
Proof.
  unfold key_unique, insert_or_replace. intros Hnd.
  rewrite fmap_app. apply NoDup_app. split_and!.
  - induction rows as [|r rows IH]; [constructor|].
    simpl in Hnd. apply NoDup_cons in Hnd as [Hr Hnd].
    rewrite filter_cons. destruct (decide (¬ same_key r row)); [|by apply IH].
    simpl. apply NoDup_cons. split; [|by apply IH].
    intros (r' & Hk & Hin)%list_elem_of_fmap. apply Hr.
    apply list_elem_of_filter in Hin as [_ Hin].
    apply list_elem_of_fmap. eauto.
  - intros k (r & -> & Hin)%list_elem_of_fmap Hk.
    apply list_elem_of_filter in Hin as [Hn _].
    simpl in Hk. apply list_elem_of_singleton in Hk. apply Hn.
    unfold key_of in Hk. injection Hk as ? ?. by split.
  - simpl. apply NoDup_singleton.
Qed.

Lemma post_db json today now_ms w :
  (api_state_post json today now_ms w).1 ≠ PostOk
  ∧ (api_state_post json today now_ms w).2 = w
  ∨ ∃ row t, t ∈ tasks (w_db w) ∧ t_id t = s_task_id row
             ∧ w_db (api_state_post json today now_ms w).2
               = {| tasks := tasks (w_db w);
                    task_state := insert_or_replace row (task_state (w_db w)) |}.
Proof.
  destruct ((api_state_post json today now_ms w).1) eqn:Hresp.
  2,3,4: left; (split; [done|]); apply post_refused_same; by rewrite Hresp.
  right. destruct (post_ok_inv json today now_ms w Hresp) as (id & t & _ & _ & Ht & Htid & Hw).
  rewrite Hw. simpl. eexists _, t. split_and!; [done| |done]. done.
Qed.

Lemma post_consistent (json : option post_body) (today : pystr) (now_ms : Z)
    (w : world) :
  let d' := w_db (api_state_post json today now_ms w).2 in
  key_unique (task_state (w_db w)) →
  fk_ok (w_db w) →
  tasks d' = tasks (w_db w) ∧ key_unique (task_state d') ∧ fk_ok d'.
Proof.
  intros d' Hk Hfk. subst d'.
  destruct (post_db json today now_ms w) as [[_ ->]|(row & t & Ht & Htid & ->)]; [done|].
  simpl. split_and!; [done|by apply key_unique_upsert|].
  intros r Hr. simpl in *. apply insert_or_replace_elem in Hr as [->|[Hr _]].
  - eauto.
  - by apply Hfk.
Qed.

(** X9: a write never changes the [tasks] table, keeps [task_state] free
    of two rows with the same (date, task_id), and keeps every
    [task_state] row naming a task of [tasks]. *)
Theorem post_keeps_tables_consistent (json : option post_body) (today : pystr) (now_ms : Z)
    (w : world) :
  let d' := w_db (api_state_post json today now_ms w).2 in
  key_unique (task_state (w_db w)) →
  fk_ok (w_db w) →
  tasks d' = tasks (w_db w) ∧ key_unique (task_state d') ∧ fk_ok d'.
Proof. apply post_consistent. Qed.

Lemma db_seed_consistent : key_unique (task_state db_seed) ∧ fk_ok db_seed.
Proof.
  split.
  - unfold key_unique. simpl. apply NoDup_cons. split; [|apply NoDup_singleton].
    intros H%list_elem_of_singleton. discriminate H.
  - intros r Hr. simpl in Hr.
    apply elem_of_cons in Hr as [->|Hr]; [exists task_T1; split; [left|done]|].
    apply list_elem_of_singleton in Hr as ->. exists task_T3. split; [|done].
    right. left.
Qed.

Lemma post_keeps_tables_consistent_witness :
  let d' := w_db (api_state_post (Some body_done_3) (lit "2024-08-06") 1000 w_seed).2 in
  tasks d' = tasks (w_db w_seed) ∧ key_unique (task_state d') ∧ fk_ok d'.
Proof.
  apply (post_keeps_tables_consistent (Some body_done_3) (lit "2024-08-06") 1000 w_seed).
  - apply db_seed_consistent.
  - apply db_seed_consistent.
Defined.

Lemma key_unique_upsert_many new : ∀ rows,
  key_unique rows → key_unique (insert_or_replace_many new rows).
Proof.
  unfold insert_or_replace_many. induction new as [|r new IH]; intros rows Hk; [done|].
  simpl. by apply IH, key_unique_upsert.
Qed.

Lemma run_posts_consistent calls : ∀ w,
  key_unique (task_state (w_db w)) → fk_ok (w_db w) →
  tasks (w_db (run_posts calls w)) = tasks (w_db w)
  ∧ key_unique (task_state (w_db (run_posts calls w)))
  ∧ fk_ok (w_db (run_posts calls w)).
Proof.
  unfold run_posts. induction calls as [|c calls IH]; intros w Hk Hfk; [done|].
  simpl. destruct (post_consistent (pc_json c) (pc_today c) (pc_now_ms c) w Hk Hfk)
    as (Ht & Hk' & Hfk').
  change (api_state_post (pc_json c) (pc_today c) (pc_now_ms c) w) with (do_post c w) in *.
  destruct (IH _ Hk' Hfk') as (Ht2 & ? & ?). split_and!; try done.
  rewrite Ht2. exact Ht.
Qed.

(** X10: from a new database, after [seed_if_empty] and any sequence of
    writes, the [tasks] table is the seeded one, [task_state] has at
    most one row for each (date, task_id), and every [task_state] row
    names a seeded task. *)
Theorem seeded_tables_stay_consistent (calls : list post_call) (sse : state) :
  let d := w_db (run_posts calls {| w_db := seed_if_empty db_new; w_sse := sse |}) in
  tasks d = sample ∧ key_unique (task_state d) ∧ fk_ok d.
Proof.
  apply (run_posts_consistent calls {| w_db := seed_if_empty db_new; w_sse := sse |}).
  - apply (key_unique_upsert_many sample_state []). constructor.
  - intros r Hr.
    assert (forallb (λ r, existsb (λ t, t_id t =? s_task_id r)%Z
                            (tasks (seed_if_empty db_new)))
              (task_state (seed_if_empty db_new)) = true) as Hall by (by vm_compute).
    rewrite forallb_forall in Hall. apply list_elem_of_In, Hall in Hr.
    apply existsb_exists in Hr as (t & Ht & Hid).
    exists t. split; [by apply list_elem_of_In|]. by apply Z.eqb_eq.
Qed.

(** ** The sequence number of the events *)











(** ** The status read, continued *)

#[global] Instance by_id_total : Total by_id.
Proof. intros a b. unfold by_id. lia. Qed.

#[global] Instance task_le_total : Total task_le.
Proof. intros a b. unfold task_le. lia. Qed.

Lemma join_at_most_one date t rows :
  key_unique rows → (length (filter (join_on date t) rows) ≤ 1)%nat.
Proof.
  unfold key_unique. induction rows as [|r rows IH]; intros Hnd; [simpl; lia|].
  simpl in Hnd. apply NoDup_cons in Hnd as [Hr Hnd].
  rewrite filter_cons. destruct (decide (join_on date t r)) as [[Hj1 Hj2]|Hj]; [|by apply IH].
  destruct (filter (join_on date t) rows) as [|s l] eqn:E; [simpl; lia|].
  assert (s ∈ filter (join_on date t) rows) as Hs by (rewrite E; left).
  apply list_elem_of_filter in Hs as [[Hs1 Hs2] Hs].
  destruct Hr. apply list_elem_of_fmap. exists s. split; [|done].
  unfold key_of. congruence.
Qed.

Lemma left_join_tasks date ts rows :
  key_unique rows → (left_join date ts rows).*1 = ts.
Proof.
  intros Hk. unfold left_join. induction ts as [|t ts IH]; [done|].
  rewrite bind_cons, fmap_app, IH. f_equal.
  pose proof (join_at_most_one date t rows Hk) as Hle.
  destruct (filter (join_on date t) rows) as [|s [|s' l]]; simpl in *; try done. lia.
Qed.

Lemma entry_id p : e_id (to_entry (select_row p)) = t_id p.1.
Proof. by destruct p as [t [s|]]. Qed.

(** X11: when [task_state] has at most one row for each (date,
    task_id), the status read lists exactly one entry for each row of
    [tasks], in ascending order of id, and [total] is the number of
    tasks. *)
Theorem status_read_lists_each_task_once (U : UCD) (d : db) (arg : option pystr)
    (today : pystr) :
  let r := api_state_get U d arg today in
  key_unique (task_state d) →
  e_id <$> r_list r ≡ₚ t_id <$> tasks d
  ∧ Sorted Z.le (e_id <$> r_list r)
  ∧ total (r_stats r) = length (tasks d).
Proof.
  intros r Hk. subst r. unfold api_state_get, query_state. simpl.
  set (date := str_or arg today).
  set (L := left_join date (tasks d) (task_state d)).
  assert (e_id <$> (to_entry <$> (select_row <$> merge_sort by_id L))
          = (λ p, t_id p.1) <$> merge_sort by_id L) as Hids.
  { rewrite <- !list_fmap_compose. apply list_fmap_ext. intros _ p _. simpl.
    apply entry_id. }
  assert ((λ p : task_row * option state_row, t_id p.1) <$> L = t_id <$> tasks d) as HL.
  { change ((t_id ∘ fst) <$> L = t_id <$> tasks d).
    rewrite list_fmap_compose. unfold L. by rewrite left_join_tasks. }
  split_and!.
  - rewrite Hids, merge_sort_Permutation. by rewrite HL.
  - rewrite Hids. eapply Sorted_fmap; [|apply (Sorted_merge_sort by_id)]. done.
  - rewrite !length_fmap. rewrite merge_sort_Permutation.
    rewrite <- (length_fmap (λ p : task_row * option state_row, t_id p.1)), HL.
    by rewrite length_fmap.
Qed.

Lemma status_read_lists_each_task_once_witness :
  let r := api_state_get ucd_latin db_seed (Some (lit "2024-08-06")) (lit "2024-08-06") in
  e_id <$> r_list r ≡ₚ t_id <$> tasks db_seed
  ∧ Sorted Z.le (e_id <$> r_list r)
  ∧ total (r_stats r) = length (tasks db_seed).
Proof.
  apply (status_read_lists_each_task_once ucd_latin db_seed (Some (lit "2024-08-06"))
           (lit "2024-08-06")).
  apply db_seed_consistent.
Defined.

Lemma sum_if_le (p p' : entry → bool) (lst : list entry) :
  (∀ x, p x = true → p' x = true) → (sum_if p lst ≤ sum_if p' lst)%nat.
Proof.
  intros Hpp. induction lst as [|x lst IH]; [done|]. simpl.
  destruct (p x) eqn:E.
  - rewrite (Hpp x E). lia.
  - destruct (p' x); lia.
Qed.

(** X12: in the statistics of the status read, the count of must-review
    tasks still open never exceeds the count of tasks not done, which
    never exceeds the total. *)
Theorem stats_ordered (U : UCD) (d : db) (arg : option pystr) (today : pystr) :
  let s := r_stats (api_state_get U d arg today) in
  (mustReviewUndone s ≤ undone s)%nat ∧ (undone s ≤ total s)%nat.
Proof.
  simpl. split.
  - apply sum_if_le. intros x Hx.
    apply andb_true_iff in Hx as [Hx _]. by apply andb_true_iff in Hx as [_ Hx].
  - pose proof (sum_if_partition (to_entry <$> query_state d (str_or arg today))). lia.
Qed.

(** ** The projection, continued *)

Section ProjectionMore.
Context (U : UCD).

Lemma render_time_raises text e : render_time U text = Raise e → e = ValueError.
Proof.
  unfold render_time.
  destruct (strptime_HMS (decimal U) text) as [t|e1] eqn:E1; [done|].
  apply strptime_HMS_raises in E1 as ->. simpl.
  destruct (strptime_HM (decimal U) text) as [t|e2] eqn:E2; [done|].
  apply strptime_HM_raises in E2 as ->. by intros [= <-].
Qed.

Lemma replace_date_part_raises ts to_date e :
  replace_date_part U ts to_date = Raise e → e = ValueError.
Proof.
  unfold replace_date_part. destruct (time_text_total ts) as [text ->].
  destruct (render_time U text) as [t|e1] eqn:E; [done|].
  apply render_time_raises in E as ->. by intros [= <-].
Qed.

Lemma fmt_02d_chars n : n < 100 → Forall time_char (fmt_02d n).
Proof.
  intros Hn. unfold fmt_02d, time_char, is_ascii_digit.
  assert (n / 10 < 10) by (apply N.Div0.div_lt_upper_bound; lia).
  assert (n mod 10 < 10) by (apply N.mod_upper_bound; lia).
  generalize dependent (n / 10). generalize dependent (n mod 10). intros b Hb a Ha.
  apply Forall_cons. split; [|apply Forall_cons; split; [|by apply Forall_nil]];
    left; apply andb_true_iff; split; apply N.leb_le; lia.
Qed.

Lemma colon_char : Forall time_char [COLON].
Proof. apply Forall_cons. split; [by right|by apply Forall_nil]. Qed.
End ProjectionMore.

(** X13: whatever the template string and the date string,
    [replace_date_part] either returns or raises [ValueError]; taking
    the element 1 of the split never raises [IndexError]. *)
Theorem projection_raises_only_ValueError (U : UCD) (ts to_date : pystr) :
  (∃ r, replace_date_part U ts to_date = Ok r)
  ∨ replace_date_part U ts to_date = Raise ValueError.
Proof.
  destruct (replace_date_part U ts to_date) as [r|e] eqn:E; [eauto|].
  apply replace_date_part_raises in E as ->. by right.
Qed.

(** X14: a projection that returns is the target date, one space, and a
    time in canonical form: two-digit fields in ASCII digits separated
    by colons, [HH:MM] or [HH:MM:SS], with the hour below 24 and minute
    and second below 60, whatever digits and paddings the template
    used. *)
Theorem projection_is_canonical (U : UCD) (ts to_date r : pystr) :
  replace_date_part U ts to_date = Ok r →
  ∃ t body,
    r = to_date ++ [SPACE] ++ body
    ∧ (body = strftime_HMS t ∨ body = strftime_HM t)
    ∧ hour t < 24 ∧ minute t < 60 ∧ second t < 60
    ∧ (length body = 5 ∨ length body = 8)%nat
    ∧ Forall time_char body.
Proof.
  unfold replace_date_part. destruct (time_text ts) as [text|e]; [|done].
  destruct (render_time U text) as [t_str|e] eqn:Er; [|done].
  intros [= <-].
  apply render_time_inv in Er as [(t & Ht & ->)|(t & Ht & ->)].
  - apply strptime_HMS_inv in Ht as (_ & _ & _ & _ & _ & _ & _ & Hh & Hm & Hx).
    exists t, (strftime_HMS t). split_and!; try done; [by left|by right|].
    unfold strftime_HMS.
    repeat (apply Forall_app; split);
      first [apply colon_char | apply fmt_02d_chars; lia].
  - apply strptime_HM_inv in Ht as (_ & _ & _ & _ & _ & Hh & Hm & Hx).
    exists t, (strftime_HM t). split_and!; try done; [by right|lia|by left|].
    unfold strftime_HM.
    repeat (apply Forall_app; split);
      first [apply colon_char | apply fmt_02d_chars; lia].
Qed.

Lemma projection_is_canonical_witness :
  ∃ t body,
    lit "2025-01-01 08:05" = lit "2025-01-01" ++ [SPACE] ++ body
    ∧ (body = strftime_HMS t ∨ body = strftime_HM t)
    ∧ hour t < 24 ∧ minute t < 60 ∧ second t < 60
    ∧ (length body = 5 ∨ length body = 8)%nat
    ∧ Forall time_char body.
Proof.
  apply (projection_is_canonical ucd_latin (lit " x 8:5 ") (lit "2025-01-01")
           (lit "2025-01-01 08:05")).
  reflexivity.
Defined.

(** ** White space around and inside a template *)

Section StripMore.
Implicit Types s r x y ws : pystr.

Lemma lstrip_nonspace_head a y : a ≠ [] → nonspace a → lstrip (a ++ y) = a ++ y.
Proof.
  intros Ha Hns. destruct Hns as [|c a Hc _]; [done|]. simpl. by rewrite Hc.
Qed.

Lemma lstrip_space ws : all_space ws → lstrip ws = [].
Proof. induction 1 as [|c ws Hc _ IH]; [done|]. simpl. by rewrite Hc. Qed.

Lemma lstrip_app_space ws s : all_space ws → lstrip (ws ++ s) = lstrip s.
Proof. induction 1 as [|c ws Hc _ IH]; [done|]. simpl. by rewrite Hc. Qed.

Lemma lstrip_app_nonspace x c y :
  py_isspace c = false → lstrip (x ++ c :: y) = lstrip x ++ c :: y.
Proof.
  intros Hc. induction x as [|d x IH]; simpl.
  - by rewrite Hc.
  - by destruct (py_isspace d).
Qed.

(** A string is white space followed by its left-stripped part, which
    is empty or starts with a character that is not white space. *)
Lemma lstrip_decompose s :
  ∃ ws, all_space ws ∧ s = ws ++ lstrip s
        ∧ (lstrip s = [] ∨ ∃ c r, lstrip s = c :: r ∧ py_isspace c = false).
Proof.
  induction s as [|d s (ws & Hws & Hs & Hl)]; simpl.
  - exists []. split_and!; [constructor|done|by left].
  - destruct (py_isspace d) eqn:E.
    + exists (d :: ws). split_and!; [by constructor|by rewrite Hs at 1|done].
    + exists []. split_and!; [constructor|done|]. right. eauto.
Qed.

Lemma all_space_rev ws : all_space ws → all_space (rev ws).
Proof.
  unfold all_space. rewrite !Forall_forall. intros H c Hc. apply H.
  by apply list_elem_of_In, in_rev, list_elem_of_In.
Qed.

Lemma rstrip_app_space s ws : all_space ws → rstrip (s ++ ws) = rstrip s.
Proof.
  intros Hws. unfold rstrip. rewrite rev_app_distr.
  by rewrite lstrip_app_space by (by apply all_space_rev).
Qed.

Lemma rstrip_after_nonspace x c y :
  py_isspace c = false → rstrip (x ++ c :: y) = x ++ c :: rstrip y.
Proof.
  intros Hc. unfold rstrip. rewrite rev_app_distr. simpl. rewrite <- app_assoc. simpl.
  rewrite lstrip_app_nonspace by done. rewrite rev_app_distr. simpl.
  rewrite rev_involutive. by rewrite <- app_assoc.
Qed.

Lemma rstrip_cons_nonspace c y : py_isspace c = false → rstrip (c :: y) = c :: rstrip y.
Proof. apply (rstrip_after_nonspace [] c y). Qed.

Lemma lstrip_idem s : lstrip (lstrip s) = lstrip s.
Proof.
  destruct (lstrip_decompose s) as (_ & _ & _ & [->|(c & r & -> & Hc)]); [done|].
  simpl. by rewrite Hc.
Qed.

Lemma rstrip_idem s : rstrip (rstrip s) = rstrip s.
Proof. unfold rstrip. by rewrite rev_involutive, lstrip_idem. Qed.

(** White space around a string does not survive [strip]. *)
Lemma strip_pad ws1 s ws2 :
  all_space ws1 → all_space ws2 → strip (ws1 ++ s ++ ws2) = strip s.
Proof.
  intros H1 H2. unfold strip. rewrite lstrip_app_space by done.
  destruct (lstrip_decompose s) as (ws & Hws & Hs & [Hl|(c & r & Hl & Hc)]).
  - rewrite Hl. rewrite Hl, app_nil_r in Hs. subst s.
    rewrite lstrip_space; [done|]. by apply Forall_app.
  - assert (lstrip (s ++ ws2) = (c :: r) ++ ws2) as ->.
    { rewrite Hs, Hl, <- app_assoc, lstrip_app_space by done. simpl. by rewrite Hc. }
    rewrite Hl. by apply rstrip_app_space.
Qed.

(** The text [time_text] finds behind a date without white space. *)
Lemma time_text_after_date a r :
  a ≠ [] → nonspace a → strip r ≠ [] → time_text (a ++ SPACE :: r) = Ok (strip r).
Proof.
  intros Ha Hns Hr.
  destruct (lstrip_decompose r) as (ws & Hws & Hrs & [Hl|(c & r' & Hl & Hc)]).
  { unfold strip in Hr. by rewrite Hl in Hr. }
  assert (strip r = c :: rstrip r') as Hstrip.
  { unfold strip. rewrite Hl. by apply (rstrip_after_nonspace [] c r'). }
  assert (strip (a ++ SPACE :: r) = a ++ SPACE :: ws ++ c :: rstrip r') as Hts.
  { unfold strip. rewrite lstrip_nonspace_head.
    - rewrite Hrs, Hl.
      change (a ++ SPACE :: ws ++ c :: r') with (a ++ (SPACE :: ws) ++ c :: r').
      rewrite app_assoc, rstrip_after_nonspace by done. by rewrite <- app_assoc.
    - done.
    - done. }
  unfold time_text. rewrite Hts, contains_app.
  rewrite split1_app by (by apply nonspace_no_SPACE). unfold index. simpl.
  rewrite Hstrip. f_equal. unfold strip.
  rewrite lstrip_app_space by done. simpl. rewrite Hc.
  rewrite rstrip_cons_nonspace by done.
  by rewrite rstrip_idem.
Qed.
End StripMore.

(** X15: white space before and after the template does not matter to
    the projection. *)
Theorem projection_ignores_padding (U : UCD) (ws1 ts ws2 to_date : pystr) :
  all_space ws1 → all_space ws2 →
  replace_date_part U (ws1 ++ ts ++ ws2) to_date = replace_date_part U ts to_date.
Proof.
  intros H1 H2. unfold replace_date_part, time_text. by rewrite strip_pad.
Qed.

Lemma projection_ignores_padding_witness :
  replace_date_part ucd_latin ([9; 32] ++ lit "2024-08-06 08:00" ++ [10]) (lit "2025-01-01")
  = replace_date_part ucd_latin (lit "2024-08-06 08:00") (lit "2025-01-01").
Proof.
  apply (projection_ignores_padding ucd_latin [9; 32] (lit "2024-08-06 08:00") [10]
           (lit "2025-01-01")).
  - by repeat constructor.
  - by repeat constructor.
Defined.

(** X16: the date of the template is never read: two templates that
    differ only before their first space, each starting with a
    non-empty run free of white space and followed by a time part that
    is not blank, project alike, to a string or to the error. *)
Theorem projection_ignores_template_date (U : UCD) (a b r to_date : pystr) :
  a ≠ [] → nonspace a → b ≠ [] → nonspace b → strip r ≠ [] →
  replace_date_part U (a ++ SPACE :: r) to_date
  = replace_date_part U (b ++ SPACE :: r) to_date.
Proof.
  intros Ha Hna Hb Hnb Hr. unfold replace_date_part.
  by rewrite !time_text_after_date.
Qed.

Lemma projection_ignores_template_date_witness :
  replace_date_part ucd_latin (lit "2024-08-06" ++ SPACE :: lit " 08:00:30 ") (lit "2025-01-01")
  = replace_date_part ucd_latin (lit "x" ++ SPACE :: lit " 08:00:30 ") (lit "2025-01-01").
Proof.
  apply (projection_ignores_template_date ucd_latin (lit "2024-08-06") (lit "x")
           (lit " 08:00:30 ") (lit "2025-01-01")).
  - done.
  - by repeat constructor.
  - done.
  - by repeat constructor.
  - by vm_compute.
Defined.

(** ** [mr_truth], continued *)

Lemma printable_not_space c : 33 ≤ c ≤ 127 → py_isspace c = false.
Proof.
  intros Hc. destruct (py_isspace c) eqn:E; [|done].
  unfold py_isspace in E. bool_to_prop; lia.
Qed.

Lemma py_isspace_lower c : py_isspace (ascii_lower c) = py_isspace c.
Proof.
  unfold ascii_lower. destruct ((65 <=? c) && (c <=? 90)) eqn:E; [|done].
  bool_to_prop. rewrite !printable_not_space; [done|lia|lia].
Qed.

Lemma ascii_lower_idem c : ascii_lower (ascii_lower c) = ascii_lower c.
Proof.
  unfold ascii_lower. destruct ((65 <=? c) && (c <=? 90)) eqn:E; [|by rewrite E].
  bool_to_prop.
  assert ((c + 32 <=? 90) = false) as -> by (apply N.leb_gt; lia).
  by rewrite andb_false_r.
Qed.

Lemma fmap_rev {A B} (f : A → B) (l : list A) : f <$> rev l = rev (f <$> l).
Proof.
  induction l as [|x l IH]; [done|]. simpl. by rewrite fmap_app, IH.
Qed.

Lemma lstrip_lower s : lstrip (ascii_lower <$> s) = ascii_lower <$> lstrip s.
Proof.
  induction s as [|c s IH]; [done|]. simpl. rewrite py_isspace_lower.
  by destruct (py_isspace c).
Qed.

Lemma strip_lower s : strip (ascii_lower <$> s) = ascii_lower <$> strip s.
Proof.
  unfold strip, rstrip. by rewrite lstrip_lower, <- fmap_rev, lstrip_lower, fmap_rev.
Qed.

Lemma Forall_lstrip (P : N → Prop) s : Forall P s → Forall P (lstrip s).
Proof.
  induction 1 as [|c s Hc Hs IH]; [done|]. simpl.
  destruct (py_isspace c); [done|]. by constructor.
Qed.

Lemma Forall_rev_list (P : N → Prop) s : Forall P s → Forall P (rev s).
Proof.
  rewrite !Forall_forall. intros H c Hc. apply H.
  by apply list_elem_of_In, in_rev, list_elem_of_In.
Qed.

Lemma Forall_strip (P : N → Prop) s : Forall P s → Forall P (strip s).
Proof.
  intros H. unfold strip, rstrip.
  by apply Forall_rev_list, Forall_lstrip, Forall_rev_list, Forall_lstrip.
Qed.

Lemma lower_ascii_string (U : UCD) s :
  Forall (λ c, c < 128) s → lower U s = ascii_lower <$> s.
Proof.
  unfold lower. generalize (@nil N). intros pre Hs. revert pre.
  induction Hs as [|c s Hc _ IH]; intros pre; [done|].
  simpl. rewrite IH.
  assert ((c =? 931) = false) as -> by (apply N.eqb_neq; lia).
  unfold lower_full. by apply N.ltb_lt in Hc as ->.
Qed.

Lemma ascii_lower_ascii s :
  Forall (λ c, c < 128) s → Forall (λ c, c < 128) (ascii_lower <$> s).
Proof.
  intros H. apply Forall_fmap. eapply Forall_impl; [apply H|]. simpl.
  intros c Hc. unfold ascii_lower.
  destruct ((65 <=? c) && (c <=? 90)) eqn:E; [|done]. bool_to_prop. lia.
Qed.

(** X17: [mr_truth] ignores white space around its argument, and on
    ASCII input it ignores letter case: lowering the letters A to Z
    does not change the answer. *)
Theorem mr_truth_ignores_padding_and_case (U : UCD) :
  (∀ ws1 v ws2, all_space ws1 → all_space ws2 →
                mr_truth U (ws1 ++ v ++ ws2) = mr_truth U v)
  ∧ (∀ v, Forall (λ c, c < 128) v → mr_truth U (ascii_lower <$> v) = mr_truth U v).
Proof.
  split.
  - intros ws1 v ws2 H1 H2. unfold mr_truth. by rewrite strip_pad.
  - intros v Hv. unfold mr_truth.
    rewrite strip_lower.
    rewrite !lower_ascii_string by (by apply Forall_strip || by apply ascii_lower_ascii, Forall_strip).
    rewrite <- list_fmap_compose.
    assert (ascii_lower ∘ ascii_lower <$> strip v = ascii_lower <$> strip v) as ->; [|done].
    apply list_fmap_ext. intros _ c _. apply ascii_lower_idem.
Qed.

(** ** The timetable *)

Section TimetableFacts.
Context (U : UCD) {J : Type} (json_loads : pystr → option J) (json_nil : J).

#[local] Abbreviation projected := (projected U).
#[local] Abbreviation unprojectable := (unprojectable U).

Lemma project_row_spec date t :
  match project_row U json_loads json_nil date t with
  | Ok o => projected date t o
  | Raise e => e = ValueError ∧ unprojectable date t
  end.
Proof.
  unfold project_row, projected, unprojectable.
  destruct (replace_date_part U (t_start t) date) as [s|e] eqn:Es.
  - destruct (replace_date_part U (t_end t) date) as [s'|e] eqn:Ee; [done|].
    apply replace_date_part_raises in Ee as ->. split; [done|]. by right.
  - apply replace_date_part_raises in Es as ->. split; [done|]. by left.
Qed.

Lemma project_rows_spec date rows :
  match project_rows U json_loads json_nil date rows with
  | Ok out => Forall2 (projected date) rows out
  | Raise e => e = ValueError ∧ ∃ t, t ∈ rows ∧ unprojectable date t
  end.
Proof.
  induction rows as [|t rows IH]; simpl; [constructor|].
  pose proof (project_row_spec date t) as Ht.
  destruct (project_row U json_loads json_nil date t) as [o|e].
  - destruct (project_rows U json_loads json_nil date rows) as [out|e].
    + by constructor.
    + destruct IH as [-> (t' & Hin & Hf)]. split; [done|]. exists t'. split; [by right|done].
  - destruct Ht as [-> Hf]. split; [done|]. exists t. split; [left|done].
Qed.
End TimetableFacts.

(** X18: [api_tasks] answers for all rows or for none.  If a start or
    end of some row of [tasks] does not project onto the date, the call
    raises [ValueError]; a predecessor that is not JSON never makes it
    fail.  Otherwise it returns one element for each row, in ascending
    order of id, carrying the row's name and flag and the projections
    of its two times. *)
Theorem api_tasks_all_or_nothing (U : UCD) {J : Type} (json_loads : pystr → option J)
    (json_nil : J) (d : db) (arg : option pystr) (today : pystr) :
  let date := str_or arg today in
  match api_tasks U json_loads json_nil d arg today with
  | Ok out =>
      length out = length (tasks d)
      ∧ o_id <$> out ≡ₚ t_id <$> tasks d
      ∧ Sorted Z.le (o_id <$> out)
      ∧ Forall (λ o, ∃ t, t ∈ tasks d ∧ projected U date t o) out
  | Raise e =>
      e = ValueError ∧ ∃ t, t ∈ tasks d ∧ unprojectable U date t
  end.
Proof.
  intros date. unfold api_tasks, select_tasks. fold date.
  pose proof (project_rows_spec U json_loads json_nil date (merge_sort task_le (tasks d))) as H.
  destruct (project_rows U json_loads json_nil date (merge_sort task_le (tasks d)))
    as [out|e].
  - assert (o_id <$> out = t_id <$> merge_sort task_le (tasks d)) as Hids.
    { clear -H. induction H as [|t o rows out [Hid _] _ IH]; [done|].
      rewrite !fmap_cons. by rewrite Hid, IH. }
    assert (Forall (λ o, ∃ t, t ∈ merge_sort task_le (tasks d) ∧ projected U date t o) out)
      as Hall.
    { clear -H. induction H as [|t o rows out Hp _ IH]; [constructor|].
      constructor.
      - exists t. split; [left|done].
      - eapply Forall_impl; [apply IH|]. simpl. intros o' (t' & Hin & Hp').
        exists t'. split; [by right|done]. }
    split_and!.
    + rewrite <- (Forall2_length _ _ _ H). by rewrite merge_sort_Permutation.
    + rewrite Hids. by rewrite merge_sort_Permutation.
    + rewrite Hids. eapply Sorted_fmap; [|apply (Sorted_merge_sort task_le)]. done.
    + eapply Forall_impl; [apply Hall|]. simpl. intros o (t & Hin & Hp).
      exists t. split; [|done]. by rewrite merge_sort_Permutation in Hin.
  - destruct H as [-> (t & Hin & Hf)]. split; [done|]. exists t. split; [|done].
    by rewrite merge_sort_Permutation in Hin.
Qed.

(** ** A time of day in neither format *)

Lemma api_tasks_raises (U : UCD) {J : Type} (json_loads : pystr → option J) (json_nil : J)
    (d : db) (arg : option pystr) (today : pystr) (row : task_row) :
  row ∈ tasks d →
  unprojectable U (str_or arg today) row →
  api_tasks U json_loads json_nil d arg today = Raise ValueError.
Proof.
  intros Hin Hbad. unfold api_tasks, select_tasks.
  pose proof (project_rows_spec U json_loads json_nil (str_or arg today)
                (merge_sort task_le (tasks d))) as H.
  destruct (project_rows U json_loads json_nil (str_or arg today)
              (merge_sort task_le (tasks d))) as [out|e].
  - exfalso. rewrite <- (merge_sort_Permutation task_le) in Hin.
    induction H as [|t o rows out Hp _ IH]; [by apply elem_of_nil in Hin|].
    apply elem_of_cons in Hin as [->|Hin]; [|by apply IH].
    destruct Hp as (_ & _ & _ & Hs & He). destruct Hbad; congruence.
  - by destruct H as [-> _].
Qed.

(** C3 (amended): when the time-of-day text, which is the template
    stripped of white space, then what follows its first space (all of
    it when it has none), stripped again, is in neither format, the
    call raises [ValueError] (the specification's MalformedTimeOfDay)
    and returns no string; that text is the one the code hands to
    [strptime].  The exception ends the request that made the call and
    nothing else: a timetable read over a table with such a row is
    answered with the exception, the database and the listeners are
    what they were, and the requests after it are answered as if it
    had not been made. *)
Theorem malformed_time_raises (U : UCD) {J : Type} (json_loads : pystr → option J)
    (json_nil : J) (ts to_date : pystr) :
  let text := strip (portion_after (N.eqb SPACE) (strip ts)) in
  (∀ t, strptime_HMS (decimal U) text ≠ Ok t) →
  (∀ t, strptime_HM (decimal U) text ≠ Ok t) →
  time_text ts = Ok text
  ∧ replace_date_part U ts to_date = Raise ValueError
  ∧ (∀ today arg rest w row,
       row ∈ tasks (w_db w) →
       t_start row = ts ∨ t_end row = ts →
       serve U json_loads json_nil ((today, GetTasks arg) :: rest) w
       = (TasksResponse (Raise ValueError) :: (serve U json_loads json_nil rest w).1,
          (serve U json_loads json_nil rest w).2)).
Proof.
  intros text H1 H2.
  assert (∀ date, replace_date_part U ts date = Raise ValueError) as Hraise.
  { intros date. unfold replace_date_part. rewrite time_text_words.
    by rewrite render_time_fails. }
  split_and!; [apply time_text_words|apply Hraise|].
  intros today arg rest w row Hin Hrow. cbn [serve handle].
  rewrite (api_tasks_raises U json_loads json_nil (w_db w) arg today row Hin).
  - by destruct (serve U json_loads json_nil rest w).
  - destruct Hrow as [Hs|He]; [left|right]; [rewrite Hs|rewrite He]; apply Hraise.
Qed.

Lemma malformed_time_raises_witness :
  replace_date_part ucd_latin (lit "2024-08-06 25:00") (lit "2025-01-01") = Raise ValueError
  ∧ serve ucd_latin (λ _ : pystr, @None unit) tt
      [(lit "2025-01-01", GetTasks None); (lit "2025-01-01", GetState None)] w_bad
    = ([TasksResponse (Raise ValueError);
        StateResponse (api_state_get ucd_latin db_bad None (lit "2025-01-01"))], w_bad).
Proof.
  destruct (malformed_time_raises ucd_latin (λ _ : pystr, @None unit) tt
              (lit "2024-08-06 25:00") (lit "2025-01-01")) as (_ & Hraise & Hserve).
  - intros t. vm_compute. discriminate.
  - intros t. vm_compute. discriminate.
  - split; [exact Hraise|].
    rewrite (Hserve (lit "2025-01-01") None [(lit "2025-01-01", GetState None)] w_bad
               task_bad).
    + reflexivity.
    + left.
    + by left.
Defined.

(** C3 as the specification words it fails: white space around the
    time of day is removed before it is parsed.  With two spaces
    between date and time the part after the first white space, which
    is also the part after the first space, has a leading space and is
    in neither format, and the projection returns. *)
Lemma projection_strips_time_counterexample :
  portion_after py_isspace ts_two_spaces = lit " 08:00"
  ∧ portion_after (N.eqb SPACE) ts_two_spaces = lit " 08:00"
  ∧ strptime_HMS (decimal ucd_latin) (lit " 08:00") = Raise ValueError
  ∧ strptime_HM (decimal ucd_latin) (lit " 08:00") = Raise ValueError
  ∧ time_text ts_two_spaces = Ok (lit "08:00")
  ∧ replace_date_part ucd_latin ts_two_spaces (lit "2025-01-01")
    = Ok (lit "2025-01-01 08:00").
Proof. split_and!; by vm_compute. Qed.

(** ** A new stream *)

(** X19: a stream that connects gets a queue no reference pointed to
    before, empty and of capacity 1000, and is registered; the queues
    and the registration of all other listeners are as before. *)
Theorem open_registers_fresh_queue (st : state) :
  let q := (sse_open st).1 in
  let st' := (sse_open st).2 in
  wf st →
  heap st !! q = None ∧ (q ∉ listeners st)
  ∧ heap st' !! q = Some (Queue_new 1000) ∧ q ∈ listeners st'
  ∧ ∀ p, p ≠ q → heap st' !! p = heap st !! p ∧ (p ∈ listeners st' ↔ p ∈ listeners st).
Proof.
  intros q st' Hwf. subst q st'. simpl.
  pose proof (is_fresh (dom (heap st))) as Hfresh.
  set (q := fresh (dom (heap st))) in *.
  split_and!.
  - by apply not_elem_of_dom.
  - intros Hq. by apply Hfresh, Hwf.
  - by rewrite lookup_insert_eq.
  - apply elem_of_union. left. by apply elem_of_singleton.
  - intros p Hp. rewrite lookup_insert_ne by done. split; [done|].
    rewrite elem_of_union, elem_of_singleton. intuition congruence.
Qed.

Lemma open_registers_fresh_queue_witness :
  let q := (sse_open st_one).1 in
  let st' := (sse_open st_one).2 in
  heap st_one !! q = None ∧ (q ∉ listeners st_one)
  ∧ heap st' !! q = Some (Queue_new 1000) ∧ q ∈ listeners st'
  ∧ ∀ p, p ≠ q → heap st' !! p = heap st_one !! p ∧ (p ∈ listeners st' ↔ p ∈ listeners st_one).
Proof.
  apply (open_registers_fresh_queue st_one).
  intros p Hp. apply elem_of_dom.
  unfold st_one, sse_open in *. simpl in *.
  apply elem_of_union in Hp as [Hp|Hp]; [|by apply elem_of_empty in Hp].
  apply elem_of_singleton in Hp as ->. rewrite lookup_insert_eq. eauto.
Defined.
